(** * gitlab-ci-multi-runner: the Kubernetes executor helpers and the
      coordinator network client

    A shallow embedding of

    - [executors/kubernetes/util.go]: [getKubeClientConfig],
      [waitForPodRunning], [limits];
    - the [network] package's client: [ensureTLSConfig],
      [createTransport], [getCAChain], [do], [doJSON], [fixCIURL].

    Go values are modelled as follows.  A Go [string] and a [[]byte] are
    byte sequences: [string] and [list byte].  An [error] is its message; a
    possibly-nil error is an [option error].  A function returning
    [(T, error)] returns a pair, as in Go, where the source builds both
    halves itself, and a sum [error + T] for library calls of which exactly
    one half is meaningful.  An [int] is a [Z].  Maps are [gmap]s. *)

From Stdlib Require Import ZArith QArith Strings.String Strings.Ascii Strings.Byte.
From stdpp Require Import gmap strings list.

Local Open Scope string_scope.

(** ** Go's [error] *)

Definition error := string.

(** A library call that yields either a failure or a value. *)
Notation "'ok' x" := (inr x) (at level 10, only parsing).
Notation "'fail' e" := (inl e) (at level 10, only parsing).

(** ** Package [strings] *)

Module go_strings.

(** [strings.HasPrefix]. *)
Fixpoint HasPrefix (s prefix : string) : bool :=
  match prefix, s with
  | EmptyString, _ => true
  | String _ _, EmptyString => false
  | String p prefix', String c s' => Ascii.eqb c p && HasPrefix s' prefix'
  end.

(** [strings.Contains]. *)
Fixpoint Contains (s substr : string) : bool :=
  HasPrefix s substr ||
  match s with
  | EmptyString => false
  | String _ s' => Contains s' substr
  end.

(** Whether the byte [c] occurs in [cutset]. *)
Fixpoint in_cutset (c : ascii) (cutset : string) : bool :=
  match cutset with
  | EmptyString => false
  | String d cutset' => Ascii.eqb c d || in_cutset c cutset'
  end.

(** [strings.TrimRight s cutset]: [s] without its longest suffix made of
    bytes of [cutset] only.  (The cutsets used here are ASCII, for which
    trimming bytes and trimming code points agree.) *)
Fixpoint TrimRight (s cutset : string) : string :=
  match s with
  | EmptyString => EmptyString
  | String c s' =>
      match TrimRight s' cutset with
      | EmptyString =>
          if in_cutset c cutset then EmptyString else String c EmptyString
      | String d t => String c (String d t)
      end
  end.

(** [strings.HasSuffix]:
    [len(s) >= len(suffix) && s[len(s)-len(suffix):] == suffix]. *)
Definition HasSuffix (s suffix : string) : bool :=
  (String.length suffix <=? String.length s)%nat &&
  String.eqb
    (String.substring (String.length s - String.length suffix)
                      (String.length suffix) s)
    suffix.

(** [strings.Split s sep] for a separator that is not empty, from the
    position reached: [skip] bytes of a separator just matched are still to
    be passed over, and [cur] is the piece read since the last separator.
    (With the empty separator Go splits after each UTF-8 sequence; that
    case is not used here.) *)
Fixpoint Split_from (s sep : string) (skip : nat) (cur : string) : list string :=
  match s with
  | EmptyString => [cur]
  | String c s' =>
      match skip with
      | S skip' => Split_from s' sep skip' cur
      | O =>
          if HasPrefix s sep
          then cur :: Split_from s' sep (String.length sep - 1) EmptyString
          else Split_from s' sep 0 (cur ++ String c EmptyString)
      end
  end.

Definition Split (s sep : string) : list string :=
  Split_from s sep 0 EmptyString.

End go_strings.

(** ** Package [k8s.io/kubernetes/pkg/api/resource] *)

Module resource.

(** [inf.Dec]: the number [Unscaled * 10 ^ (- Scale)]. *)
Record Dec := { Unscaled : Z; Scale : Z }.

Inductive Format := DecimalExponent | BinarySI | DecimalSI.

Record Quantity := { Amount : Dec; QFormat : Format }.

(** The rational a [Dec] stands for. *)
Definition Dec_value (d : Dec) : Q :=
  if (0 <=? Scale d)%Z
  then Qmake (Unscaled d) (Z.to_pos (10 ^ Scale d))
  else inject_Z (Unscaled d * 10 ^ (- Scale d)).

Definition Value (q : Quantity) : Q := Dec_value (Amount q).

Definition is_digit (c : ascii) : bool :=
  (48 <=? nat_of_ascii c)%nat && (nat_of_ascii c <=? 57)%nat.

Definition digit_value (c : ascii) : Z := Z.of_nat (nat_of_ascii c - 48).

(** Reads the longest run of decimal digits at the head of [s]: the
    number read on top of [acc], how many digits it had, and the rest. *)
Fixpoint read_digits (s : string) (acc : Z) (count : nat) : Z * nat * string :=
  match s with
  | String c s' =>
      if is_digit c
      then read_digits s' (acc * 10 + digit_value c)%Z (S count)
      else (acc, count, s)
  | EmptyString => (acc, count, s)
  end.

(** The suffix table: base, exponent and format of each suffix. *)
Definition interpret (suffix : string) : option (Z * Z * Format) :=
  if String.eqb suffix "" then Some (10, 0, DecimalSI)%Z
  else if String.eqb suffix "n" then Some (10, -9, DecimalSI)%Z
  else if String.eqb suffix "u" then Some (10, -6, DecimalSI)%Z
  else if String.eqb suffix "m" then Some (10, -3, DecimalSI)%Z
  else if String.eqb suffix "k" then Some (10, 3, DecimalSI)%Z
  else if String.eqb suffix "M" then Some (10, 6, DecimalSI)%Z
  else if String.eqb suffix "G" then Some (10, 9, DecimalSI)%Z
  else if String.eqb suffix "T" then Some (10, 12, DecimalSI)%Z
  else if String.eqb suffix "P" then Some (10, 15, DecimalSI)%Z
  else if String.eqb suffix "E" then Some (10, 18, DecimalSI)%Z
  else if String.eqb suffix "Ki" then Some (2, 10, BinarySI)%Z
  else if String.eqb suffix "Mi" then Some (2, 20, BinarySI)%Z
  else if String.eqb suffix "Gi" then Some (2, 30, BinarySI)%Z
  else if String.eqb suffix "Ti" then Some (2, 40, BinarySI)%Z
  else if String.eqb suffix "Pi" then Some (2, 50, BinarySI)%Z
  else if String.eqb suffix "Ei" then Some (2, 60, BinarySI)%Z
  else None.

Definition ErrFormatWrong : error :=
  "quantities must match the regular expression".
Definition ErrSuffix : error := "unable to parse quantity's suffix".

(** Modelled from the spec: [resource.ParseQuantity] belongs to the
    Kubernetes client library and is not part of this repository.  The
    spec describes its input as "a compact textual resource amount using
    standard suffix notation (e.g., milli-unit, binary byte multiples)":
    an optional sign, decimal digits with an optional fraction, and a
    decimal-SI or binary-SI suffix.  The decimal suffix moves the scale,
    the binary suffix multiplies the unscaled number.  Every result about
    [limits] below that is not a concrete scenario is proved for an
    arbitrary parser. *)
Definition ParseQuantity (str : string) : error + Quantity :=
  let '(sign, body) :=
    match str with
    | String "-" s' => ((-1)%Z, s')
    | String "+" s' => (1%Z, s')
    | _ => (1%Z, str)
    end in
  let '(int_part, int_digits, rest) := read_digits body 0%Z 0%nat in
  let '(all_part, frac_digits, suffix) :=
    match rest with
    | String "." rest' => read_digits rest' int_part 0%nat
    | _ => (int_part, 0%nat, rest)
    end in
  if (int_digits + frac_digits =? 0)%nat then fail ErrFormatWrong
  else
    match interpret suffix with
    | None => fail ErrSuffix
    | Some (base, exponent, format) =>
        let unscaled := (sign * all_part)%Z in
        let scale := Z.of_nat frac_digits in
        if (base =? 10)%Z
        then ok {| Amount := {| Unscaled := unscaled;
                                Scale := scale - exponent |};
                   QFormat := format |}
        else ok {| Amount := {| Unscaled := unscaled * 2 ^ exponent;
                                Scale := scale |};
                   QFormat := format |}
    end.

End resource.

(** ** Package [kubernetes] ([executors/kubernetes/util.go]) *)

Module kubernetes.

(** *** [getKubeClientConfig] *)

(** [common.KubernetesConfig], the fields read here. *)
Record KubernetesConfig := {
  Host : string;
  CertFile : string;
  KeyFile : string;
  CAFile : string;
}.

(** [restclient.TLSClientConfig] and [restclient.Config], the fields
    written here; every other field keeps its zero value. *)
Record TLSClientConfig := {
  tls_CertFile : string;
  tls_KeyFile : string;
  tls_CAFile : string;
}.

Record restConfig := {
  rc_Host : string;
  rc_TLSClientConfig : TLSClientConfig;
}.

Definition zeroTLSClientConfig : TLSClientConfig :=
  {| tls_CertFile := ""; tls_KeyFile := ""; tls_CAFile := "" |}.

Definition errFileBasedAuth : error :=
  "ca file, cert file and key file must be specified when using file based auth".

Section GetKubeClientConfig.

(** [restclient.InClusterConfig()], the library's in-cluster
    discovery: whatever pair it returns. *)
Variable InClusterConfig : option restConfig * option error.

Definition getKubeClientConfig (config : KubernetesConfig)
  : option restConfig * option error :=
  if (0 <? String.length (CertFile config))%nat then
    if (String.length (KeyFile config) =? 0)%nat
       || (String.length (CAFile config) =? 0)%nat
    then (None, Some errFileBasedAuth)
    else (Some {| rc_Host := Host config;
                  rc_TLSClientConfig :=
                    {| tls_CertFile := CertFile config;
                       tls_KeyFile := KeyFile config;
                       tls_CAFile := CAFile config |} |},
          None)
  else if (0 <? String.length (Host config))%nat then
    (Some {| rc_Host := Host config;
             rc_TLSClientConfig := zeroTLSClientConfig |},
     None)
  else InClusterConfig.

End GetKubeClientConfig.

(** *** [limits] *)

(** [api.ResourceName] is a string type; the two names [limits] uses. *)
Definition ResourceLimitsCPU : string := "limits.cpu".
Definition ResourceLimitsMemory : string := "limits.memory".

(** [api.ResourceList] is [map[ResourceName]resource.Quantity]. *)
Abbreviation ResourceList := (gmap string resource.Quantity).

Section Limits.

Variable ParseQuantity : string -> error + resource.Quantity.

(** The closure [parse] of [limits]: a nil quantity for the empty
    string, the parsed quantity, or the wrapped parse error. *)
Definition parse (s : string) : option resource.Quantity * option error :=
  if (String.length s =? 0)%nat then (None, None)
  else
    match ParseQuantity s with
    | inl err => (None, Some ("error parsing resource limit: " ++ err))
    | inr q => (Some q, None)
    end.

Definition limits_with (cpu memory : string) : ResourceList * option error :=
  let '(rCPU, err) := parse cpu in
  match err with
  | Some _ => (∅, None)
  | None =>
      let '(rMem, err) := parse memory in
      match err with
      | Some _ => (∅, None)
      | None =>
          let l : ResourceList := ∅ in
          let l := match rCPU with
                   | Some q => <[ResourceLimitsCPU := q]> l
                   | None => l
                   end in
          let l := match rMem with
                   | Some q => <[ResourceLimitsMemory := q]> l
                   | None => l
                   end in
          (l, None)
      end
  end.

End Limits.

(** [limits] with the library's parser. *)
Definition limits : string -> string -> ResourceList * option error :=
  limits_with resource.ParseQuantity.

(** *** [waitForPodRunning] *)

(** [api.PodPhase] is a string type with five named values. *)
Definition PodPhase := string.
Definition PodPending : PodPhase := "Pending".
Definition PodRunning : PodPhase := "Running".
Definition PodSucceeded : PodPhase := "Succeeded".
Definition PodFailed : PodPhase := "Failed".
Definition PodUnknown : PodPhase := "Unknown".

Record PodStatus := { Phase : PodPhase }.

Record Pod := {
  Namespace : string;
  Name : string;
  Status : PodStatus;
}.

(** The local type [resp] sent from the fetching goroutine. *)
Record resp := {
  done : bool;
  phase : PodPhase;
  err : option error;
}.

(** What the waiter does to the outside, in program order. *)
Inductive Event :=
| EvLaunchFetch (namespace name : string)
    (** the [go] statement: a goroutine starts whose first action is
        [c.Pods(namespace).Get(name)] *)
| EvWrite (line : string)
    (** [fmt.Fprintf(out, ...)] *)
| EvSleep (nanoseconds : Z)
    (** [time.Sleep] *).

Definition Second : Z := 1000000000.

Definition LF : string := String (ascii_of_nat 10) EmptyString.

Definition errAlreadySucceeded : error :=
  "pod already succeeded before it begins running".
Definition errStatusFailed : error := "pod status is failed".

(** The body of the goroutine once [Get] has returned [got]: what it
    writes and sleeps, and the [resp] it sends.  The [pod] of the
    progress line is the fetched one, which shadows the argument. *)
Definition fetch (got : error + Pod) : list Event * resp :=
  match got with
  | inl e => ([], {| done := true; phase := PodUnknown; err := Some e |})
  | inr pod =>
      let ph := Phase (Status pod) in
      if String.eqb ph PodRunning then
        ([], {| done := true; phase := ph; err := None |})
      else if String.eqb ph PodSucceeded then
        ([], {| done := true; phase := ph; err := Some errAlreadySucceeded |})
      else if String.eqb ph PodFailed then
        ([], {| done := true; phase := ph; err := Some errStatusFailed |})
      else
        ([EvWrite ("Waiting for pod " ++ Namespace pod ++ "/" ++ Name pod
                   ++ " to be running, status is " ++ ph ++ LF);
          EvSleep (1 * Second)],
         {| done := false; phase := ph; err := None |})
  end.

(** What the outside world does during one iteration of the loop. *)
Record Round := {
  (** what [Get] returns to this iteration's fetch *)
  get_result : error + Pod;
  (** [Some e] when the context is cancelled, with [ctx.Err() = e],
      while this iteration waits *)
  cancel_during : option error;
  (** when the context is done: whether the fetch's send was ready and
      was the case [select] took all the same *)
  fetch_first : bool;
  (** when the cancellation case is taken: how many of its events the
      fetch, which runs on its own, has got to by then (none while [Get]
      is in flight; the line, then the sleep, once [Get] has returned a
      phase to wait for) *)
  abandoned_after : nat;
}.

(** A [context.Context] as the waiter sees it: [None] while [Done()] is
    open, [Some e] once it is closed, [e] being [ctx.Err()].  A cancelled
    context stays cancelled. *)
Definition Context := option error.

Definition ctx_after (ctx : Context) (r : Round) : Context :=
  match ctx with
  | Some e => Some e
  | None => cancel_during r
  end.

(** Which case of the [select] proceeds. *)
Inductive SelectCase :=
| RecvFetch
| RecvDone (e : error).

Definition select (ctx : Context) (r : Round) : SelectCase :=
  match ctx_after ctx r with
  | Some e => if fetch_first r then RecvFetch else RecvDone e
  | None => RecvFetch
  end.

(** [waitForPodRunning ctx c pod out], run against the iterations
    [rounds]: the result, [None] while the loop is still going when
    [rounds] ends, and the events in order.  On entering the [select]
    its channel operand is evaluated first, which is the call that
    launches the fetch; only then is a case chosen.  When the cancellation
    case is taken the fetch goes on by itself: the trace holds what it had
    done by then, and nothing of what it does after the waiter has
    returned. *)
Fixpoint waitForPodRunning (ctx : Context) (pod : Pod) (rounds : list Round)
  : option (PodPhase * option error) * list Event :=
  match rounds with
  | [] => (None, [])
  | r :: rounds' =>
      let launch := EvLaunchFetch (Namespace pod) (Name pod) in
      match select ctx r with
      | RecvDone e =>
          (Some (PodUnknown, Some e),
           launch :: take (abandoned_after r) (fst (fetch (get_result r))))
      | RecvFetch =>
          let '(events, r') := fetch (get_result r) in
          if done r' then (Some (phase r', err r'), launch :: events)
          else
            let '(result, trace) :=
              waitForPodRunning (ctx_after ctx r) pod rounds' in
            (result, launch :: events ++ trace)
      end
  end.

(** The number of fetches launched in a trace. *)
Definition is_launch (e : Event) : bool :=
  match e with
  | EvLaunchFetch _ _ => true
  | _ => false
  end.

Definition launches (trace : list Event) : nat :=
  length (List.filter is_launch trace).

(** The lines written to [out] in a trace. *)
Definition written (trace : list Event) : list string :=
  omap (λ e, match e with EvWrite l => Some l | _ => None end) trace.

(** *** [getKubeClient] *)

Section GetKubeClient.

(** A [client.Client] of the Kubernetes library. *)
Variable KubeClient : Type.
Variable InClusterConfig : option restConfig * option error.
(** [client.New(restConfig)] *)
Variable client_New : option restConfig -> option KubeClient * option error.

Definition getKubeClient (config : KubernetesConfig)
  : option KubeClient * option error :=
  let '(restConfig, err) := getKubeClientConfig InClusterConfig config in
  match err with
  | Some e => (None, Some e)
  | None => client_New restConfig
  end.

End GetKubeClient.

(** *** [buildVariables] *)

(** [common.BuildVariable], the fields read here. *)
Record BuildVariable := {
  Key : string;
  Value : string;
}.

(** [api.EnvVar], the fields written here. *)
Record EnvVar := {
  env_Name : string;
  env_Value : string;
}.

Definition zeroEnvVar : EnvVar := {| env_Name := ""; env_Value := "" |}.

(** [buildVariables]: a slice of [len(bv)] zero values, then [e[i]] is
    assigned for each index [i] of [bv] in turn.  (An index out of range
    would panic in Go and is dropped here; the loop produces none.) *)
Definition buildVariables (bv : list BuildVariable) : list EnvVar :=
  let e := replicate (length bv) zeroEnvVar in
  fold_left
    (λ e ib, <[fst ib := {| env_Name := Key (snd ib);
                            env_Value := Value (snd ib) |}]> e)
    (imap pair bv) e.

End kubernetes.


(** ** Package [encoding/hex] *)

Module hex.

Definition hextable : string := "0123456789abcdef".

Definition digit (n : N) : ascii :=
  match String.get (N.to_nat n) hextable with
  | Some c => c
  | None => "0"%char
  end.

(** [hex.EncodeToString]: two digits per byte, [hextable[v>>4]] then
    [hextable[v&0x0f]]. *)
Fixpoint EncodeToString (src : list byte) : string :=
  match src with
  | [] => EmptyString
  | v :: src' =>
      String (digit (N.shiftr (Byte.to_N v) 4))
        (String (digit (N.land (Byte.to_N v) 15)) (EncodeToString src'))
  end.

(** The value of a digit of [hextable]. *)
Definition fromHexChar (c : ascii) : N :=
  let n := N_of_ascii c in
  if (n <? 58)%N then (n - 48)%N else (n - 87)%N.

(** [hex.DecodeString], on the strings [EncodeToString] writes. *)
Fixpoint DecodeString (s : string) : list byte :=
  match s with
  | String hi (String lo s') =>
      match Byte.of_N (N.shiftl (fromHexChar hi) 4 + fromHexChar lo) with
      | Some v => v :: DecodeString s'
      | None => []
      end
  | _ => []
  end.

End hex.

(** ** Package [network] (the coordinator client) *)

Module network.

(** A [time.Time] as an instant on one clock; [Before] is [t.Before(u)]. *)
Definition Time := Z.
Definition Before (t u : Time) : bool := (t <? u)%Z.
Definition Second : Z := 1000000000.

(** [x509.Certificate], the fields read here. *)
Record Certificate := {
  Raw : list byte;
  Signature : list byte;
}.

(** [tls.ConnectionState], the field read here. *)
Record ConnectionState := {
  VerifiedChains : list (list Certificate);
}.

(** [pem.Block] (no headers are set here). *)
Record Block := {
  Type_ : string;
  Bytes : list byte;
}.

(** [tls.Config], the fields set here.  A certificate pool is known by
    the PEM data it was filled from. *)
Definition VersionTLS10 : Z := 769.

Record tlsConfig := {
  MinVersion : Z;
  InsecureSkipVerify : bool;
  RootCAs : option (list byte);
}.

(** An [&http.Transport{...}]: the address the allocation returned and
    the fields that vary.  [Proxy] and [Dial] are the same for every
    transport built here. *)
Record Transport_ := {
  addr : nat;
  TLSHandshakeTimeout : Z;
  TLSClientConfig : tlsConfig;
}.

(** [http.Header]; the keys set here are in canonical form already. *)
Abbreviation Header := (gmap string (list string)).

Definition Header_Set (h : Header) (key value : string) : Header :=
  <[key := [value]]> h.

Definition Header_Get (h : Header) (key : string) : string :=
  match h !! key with
  | Some (v :: _) => v
  | _ => ""
  end.

(** A [logrus] line: its level and its arguments. *)
Inductive Level := DebugLevel | WarnLevel | ErrorLevel.
Definition LogEntry : Type := Level * list string.

(** [fixCIURL]. *)
Definition fixCIURL (url : string) : string :=
  let url := go_strings.TrimRight url "/" in
  if negb (go_strings.HasSuffix url "/ci") then url ++ "/ci" else url.

Section Client.

(** A parsed [url.URL], the objects sent as JSON, and the objects a
    response is decoded into. *)
Variables (URL Obj Target : Type).

Record Request := {
  Method : string;
  req_URL : string;
  req_Body : option (list byte);
  req_Header : Header;
}.

Record Response := {
  StatusCode : Z;
  Status : string;
  resp_Header : Header;
  resp_Body : list byte;
  TLS : option ConnectionState;
}.

(** The [client] struct; [Transport] is the field of the embedded
    [http.Client], [None] for [nil]. *)
Record client := {
  Transport : option Transport_;
  url : URL;
  caFile : string;
  caData : list byte;
  skipVerify : bool;
  updateTime : Time;
}.

(** The client together with what its methods change around it: the
    number of transports allocated so far, which is also the next free
    address, and the lines logged. *)
Record state := {
  this : client;
  allocs : nat;
  logs : list LogEntry;
}.

(** The libraries and the outside world during one call. *)
Record Env := {
  (** [os.Stat(name)] followed by [ModTime()] *)
  os_Stat : string -> error + Time;
  (** [time.Now()] *)
  time_Now : Time;
  ioutil_ReadFile : string -> error + list byte;
  os_IsNotExist : error -> bool;
  (** whether [pool.AppendCertsFromPEM(data)] finds a certificate *)
  AppendCertsFromPEM : list byte -> bool;
  (** [pem.Encode(out, b)]: what it appends to [out], and its error *)
  pem_Encode : Block -> string * option error;
  (** [base.Parse(ref)] *)
  URL_Parse : URL -> string -> error + URL;
  URL_String : URL -> string;
  (** [http.NewRequest(method, urlStr, body)], with an empty header *)
  http_NewRequest : string -> string -> option (list byte) -> error + Request;
  (** [n.Do(req)]: the embedded [http.Client] sends through the
      client's transport *)
  client_Do : client -> Request -> error + Response;
  json_Marshal : Obj -> error + list byte;
  (** [json.NewDecoder(body).Decode(v)]: what [v] points to afterwards,
      and the error *)
  json_Decode : list byte -> Target -> Target * option error;
  (** [common.AppVersion.UserAgent()] *)
  UserAgent : string;
}.

Variable env : Env.

Definition set_Transport (n : client) (t : option Transport_) : client :=
  {| Transport := t; url := url n; caFile := caFile n; caData := caData n;
     skipVerify := skipVerify n; updateTime := updateTime n |}.

Definition set_caData (n : client) (data : list byte) : client :=
  {| Transport := Transport n; url := url n; caFile := caFile n;
     caData := data; skipVerify := skipVerify n;
     updateTime := updateTime n |}.

Definition set_updateTime (n : client) (t : Time) : client :=
  {| Transport := Transport n; url := url n; caFile := caFile n;
     caData := caData n; skipVerify := skipVerify n; updateTime := t |}.

Definition set_this (s : state) (n : client) : state :=
  {| this := n; allocs := allocs s; logs := logs s |}.

Definition log (s : state) (level : Level) (args : list string) : state :=
  {| this := this s; allocs := allocs s;
     logs := (logs s ++ [(level, args)])%list |}.

(** [createTransport]. *)
Definition createTransport (s : state) : state :=
  let base := {| MinVersion := VersionTLS10;
                 InsecureSkipVerify := skipVerify (this s);
                 RootCAs := None |} in
  let file := caFile (this s) in
  let '(config, s) :=
    if negb (String.eqb file "") && negb (skipVerify (this s)) then
      let s := log s DebugLevel ["Trying to load"; file; "..."] in
      match ioutil_ReadFile env file with
      | inr data =>
          if AppendCertsFromPEM env data
          then ({| MinVersion := MinVersion base;
                   InsecureSkipVerify := InsecureSkipVerify base;
                   RootCAs := Some data |},
                set_this s (set_caData (this s) data))
          else (base,
                log s ErrorLevel
                  ["Failed to parse PEM in"; caFile (this s)])
      | inl e =>
          if negb (os_IsNotExist env e)
          then (base,
                log s ErrorLevel ["Failed to load"; caFile (this s); e])
          else (base, s)
      end
    else (base, s) in
  {| this := set_Transport (this s)
               (Some {| addr := allocs s;
                        TLSHandshakeTimeout := 10 * Second;
                        TLSClientConfig := config |});
     allocs := S (allocs s);
     logs := logs s |}.

(** [ensureTLSConfig]. *)
Definition ensureTLSConfig (s : state) : state :=
  let s :=
    match os_Stat env (caFile (this s)) with
    | inr modTime =>
        if Before (updateTime (this s)) modTime
        then set_this s (set_Transport (this s) None)
        else s
    | inl _ => s
    end in
  match Transport (this s) with
  | None =>
      createTransport (set_this s (set_updateTime (this s) (time_Now env)))
  | Some _ => s
  end.

(** The first loop of [getCAChain], one certificate: skip it when its
    signature was seen, else mark the signature and append it. *)
Definition see (acc : list Certificate * gmap string bool)
    (certificate : Certificate) : list Certificate * gmap string bool :=
  let '(certificates, seenCertificates) := acc in
  let signature := hex.EncodeToString (Signature certificate) in
  if default false (seenCertificates !! signature) then acc
  else ((certificates ++ [certificate])%list,
        <[signature := true]> seenCertificates).

Definition collect (chains : list (list Certificate))
  : list Certificate * gmap string bool :=
  fold_left (λ acc verifiedChain, fold_left see verifiedChain acc)
            chains ([], ∅).

(** The second loop, one certificate: encode it onto [out]; a failure
    is logged and the loop goes on. *)
Definition encode (acc : string * state) (certificate : Certificate)
  : string * state :=
  let '(out, s) := acc in
  let '(written, e) :=
    pem_Encode env {| Type_ := "CERTIFICATE"; Bytes := Raw certificate |} in
  (out ++ written,
   match e with
   | Some e => log s WarnLevel ["Failed to encode certificate from chain:"; e]
   | None => s
   end).

(** [getCAChain]. *)
Definition getCAChain (tls : option ConnectionState) (s : state)
  : string * state :=
  if negb (List.length (caData (this s)) =? 0)%nat
  then (string_of_list_byte (caData (this s)), s)
  else
    match tls with
    | None => ("", s)
    | Some tls =>
        let '(certificates, _) := collect (VerifiedChains tls) in
        fold_left encode certificates ("", s)
    end.

Definition set_Header (req : Request) (h : Header) : Request :=
  {| Method := Method req; req_URL := req_URL req;
     req_Body := req_Body req; req_Header := h |}.

(** The two header steps of [do]: the caller's headers replace the
    request's if they are not nil, and a request with a body gets its
    content type and the user agent. *)
Definition with_headers (req : Request) (request : option (list byte))
    (requestType : string) (headers : option Header) : Request :=
  let req :=
    match headers with
    | Some h => set_Header req h
    | None => req
    end in
  match request with
  | Some _ =>
      set_Header req
        (Header_Set
           (Header_Set (req_Header req) "Content-Type" requestType)
           "User-Agent" (UserAgent env))
  | None => req
  end.

(** [do]. *)
Definition do (uri method : string) (request : option (list byte))
    (requestType : string) (headers : option Header) (s : state)
  : (error + Response) * state :=
  match URL_Parse env (url (this s)) uri with
  | inl e => (inl e, s)
  | inr u =>
      match http_NewRequest env method (URL_String env u) request with
      | inl e => (inl ("failed to create NewRequest: " ++ e), s)
      | inr req =>
          let req := with_headers req request requestType headers in
          let s := ensureTLSConfig s in
          match client_Do env (this s) req with
          | inl e =>
              (inl ("couldn't execute " ++ Method req ++ " against "
                    ++ req_URL req ++ ": " ++ e), s)
          | inr res => (inr res, s)
          end
      end
  end.

(** The head of [doJSON]: the request body, [None] for a nil
    [request], or the message of the marshalling failure. *)
Definition marshal_body (request : option Obj) : error + option (list byte) :=
  match request with
  | Some request =>
      match json_Marshal env request with
      | inl e => inl ("failed to marshal project object: " ++ e)
      | inr requestBody => inr (Some requestBody)
      end
  | None => inr None
  end.

(** The headers [doJSON] builds: [Accept] only if a response is
    wanted. *)
Definition accept_headers (response : option Target) : Header :=
  match response with
  | Some _ => Header_Set ∅ "Accept" "application/json"
  | None => ∅
  end.

(** [doJSON]: the returned triple, what [response] points to
    afterwards ([None] for a nil [response]), and the state.  Draining
    and closing the body on the way out changes nothing modelled
    here. *)
Definition doJSON (uri method : string) (statusCode : Z)
    (request : option Obj) (response : option Target) (s : state)
  : (Z * string * string) * option Target * state :=
  match marshal_body request with
  | inl message => (((-1)%Z, message, ""), response, s)
  | inr body =>
      let headers := accept_headers response in
      match do uri method body "application/json" (Some headers) s with
      | (inl e, s) => (((-1)%Z, e, ""), response, s)
      | (inr res, s) =>
          let finish (response : option Target) :=
            let '(chain, s) := getCAChain (TLS res) s in
            ((StatusCode res, Status res, chain), response, s) in
          if (StatusCode res =? statusCode)%Z then
            match response with
            | Some target =>
                let contentType := Header_Get (resp_Header res) "Content-Type" in
                if negb (String.eqb contentType "application/json") then
                  (((-1)%Z,
                    "Server should return application/json. Got: " ++ contentType,
                    ""),
                   response, s)
                else
                  match json_Decode env (resp_Body res) target with
                  | (target, Some e) =>
                      (((-1)%Z, "Error decoding json payload " ++ e, ""),
                       Some target, s)
                  | (target, None) => finish (Some target)
                  end
            | None => finish response
            end
          else finish response
      end
  end.

(** When [ensureTLSConfig] has to build a transport: none exists, or
    the CA file can be stat'ed and was modified after [updateTime]. *)
Definition rebuild_due (s : state) : Prop :=
  Transport (this s) = None ∨
  ∃ modTime, os_Stat env (caFile (this s)) = inr modTime
             ∧ (updateTime (this s) < modTime)%Z.

(** What [pem.Encode] writes for a certificate of the chain. *)
Definition pem_of (certificate : Certificate) : string :=
  fst (pem_Encode env {| Type_ := "CERTIFICATE"; Bytes := Raw certificate |}).

End Client.

Arguments Transport {URL} _.
Arguments url {URL} _.
Arguments caFile {URL} _.
Arguments caData {URL} _.
Arguments skipVerify {URL} _.
Arguments updateTime {URL} _.
Arguments this {URL} _.
Arguments allocs {URL} _.
Arguments logs {URL} _.
Arguments os_Stat {URL Obj Target} _ _.
Arguments time_Now {URL Obj Target} _.
Arguments ioutil_ReadFile {URL Obj Target} _ _.
Arguments os_IsNotExist {URL Obj Target} _ _.
Arguments AppendCertsFromPEM {URL Obj Target} _ _.
Arguments pem_Encode {URL Obj Target} _ _.
Arguments URL_Parse {URL Obj Target} _ _ _.
Arguments URL_String {URL Obj Target} _ _.
Arguments http_NewRequest {URL Obj Target} _ _ _ _.
Arguments client_Do {URL Obj Target} _ _ _.
Arguments json_Marshal {URL Obj Target} _ _.
Arguments json_Decode {URL Obj Target} _ _ _.
Arguments UserAgent {URL Obj Target} _.
Arguments set_Transport {URL} _ _.
Arguments set_caData {URL} _ _.
Arguments set_updateTime {URL} _ _.
Arguments set_this {URL} _ _.
Arguments log {URL} _ _ _.
Arguments createTransport {URL Obj Target} _ _.
Arguments ensureTLSConfig {URL Obj Target} _ _.
Arguments encode {URL Obj Target} _ _ _.
Arguments getCAChain {URL Obj Target} _ _ _.
Arguments with_headers {URL Obj Target} _ _ _ _ _.
Arguments do {URL Obj Target} _ _ _ _ _ _ _.
Arguments marshal_body {URL Obj Target} _ _.
Arguments accept_headers {Target} _.
Arguments doJSON {URL Obj Target} _ _ _ _ _ _ _.
Arguments rebuild_due {URL Obj Target} _ _.
Arguments pem_of {URL Obj Target} _ _.

(** *** [newClient] *)

(** What a call does: it returns, or it panics. *)
Inductive Outcome (A : Type) :=
| Returned (a : A)
| Panicked (message : string).
Arguments Returned {A} _.
Arguments Panicked {A} _.

(** The zero [time.Time]; the clock counts from it. *)
Definition zeroTime : Time := 0%Z.

(** [common.RunnerCredentials], the fields read here. *)
Record RunnerCredentials := {
  cred_URL : string;
  TLSCAFile : string;
}.

Section NewClient.

Context {URL : Type}.
(** [url.Parse(rawurl)] and the two fields of the result read here *)
Variable url_Parse : string -> error + URL.
Variable URL_Scheme : URL -> string.
Variable URL_Host : URL -> string.
(** [filepath.Join(dir, name)] *)
Variable filepath_Join : string -> string -> string.
(** the package variable [CertificateDirectory] *)
Variable CertificateDirectory : string.

Definition errScheme : error := "only http or https scheme supported".

Definition set_caFile (n : client URL) (file : string) : client URL :=
  {| Transport := Transport n; url := url n; caFile := file;
     caData := caData n; skipVerify := skipVerify n;
     updateTime := updateTime n |}.

(** [newClient]. *)
Definition newClient (config : RunnerCredentials)
  : Outcome (option (client URL) * option error) :=
  match url_Parse (fixCIURL (cred_URL config) ++ "/api/v1/") with
  | inl e => Returned (None, Some e)
  | inr u =>
      if negb (String.eqb (URL_Scheme u) "http")
         && negb (String.eqb (URL_Scheme u) "https")
      then Returned (None, Some errScheme)
      else
        let c := {| Transport := None; url := u; caFile := TLSCAFile config;
                    caData := []; skipVerify := true;
                    updateTime := zeroTime |} in
        if negb (String.eqb CertificateDirectory "")
           && String.eqb (caFile c) ""
        then
          let hostAndPort := go_strings.Split (URL_Host u) ":" in
          match hostAndPort !! 0%nat with
          | Some host =>
              Returned
                (Some (set_caFile c
                         (filepath_Join CertificateDirectory (host ++ ".crt"))),
                 None)
          | None => Panicked "index out of range"
          end
        else Returned (Some c, None)
  end.

End NewClient.

End network.

(** ** Reference definitions and concrete scenarios *)

#[global] Instance byte_eq_dec : EqDecision byte := Byte.byte_eq_dec.

(** The certificates of [l] whose signature is neither in [seen] nor
    carried by an earlier certificate of [l], in the order of [l]. *)
Fixpoint first_seen (seen : list (list byte)) (l : list network.Certificate)
  : list network.Certificate :=
  match l with
  | [] => []
  | c :: l' =>
      if decide (network.Signature c ∈ seen) then first_seen seen l'
      else c :: first_seen (network.Signature c :: seen) l'
  end.

(** The map of seen signatures marks exactly the signatures of [seen]. *)
Definition marks (seenCertificates : gmap string bool)
    (seen : list (list byte)) : Prop :=
  ∀ signature,
    default false (seenCertificates !! hex.EncodeToString signature) = true
    ↔ signature ∈ seen.

(** The concatenation of strings, in order. *)
Definition concat_strings (l : list string) : string :=
  foldr String.append EmptyString l.

(** A round in which nobody cancels and the fetch reports a phase that is
    none of Running, Succeeded and Failed. *)
Definition waiting_round (r : kubernetes.Round) : Prop :=
  kubernetes.cancel_during r = None ∧
  ∃ pod, kubernetes.get_result r = inr pod
         ∧ kubernetes.Phase (kubernetes.Status pod) ≠ kubernetes.PodRunning
         ∧ kubernetes.Phase (kubernetes.Status pod) ≠ kubernetes.PodSucceeded
         ∧ kubernetes.Phase (kubernetes.Status pod) ≠ kubernetes.PodFailed.

(** A received response that [doJSON] turns down: it has the expected
    status and there is a [response] to fill, but its content type is not
    the JSON one or its body does not decode. *)
Definition refused {URL Obj Target : Type} (env : network.Env URL Obj Target)
    (statusCode : Z) (response : option Target) (res : network.Response)
  : Prop :=
  network.StatusCode res = statusCode
  ∧ ∃ target,
      response = Some target
      ∧ (network.Header_Get (network.resp_Header res) "Content-Type"
         ≠ "application/json"
         ∨ is_Some (snd (network.json_Decode env (network.resp_Body res) target))).

(** The environment variable a build variable stands for. *)
Definition toEnvVar (b : kubernetes.BuildVariable) : kubernetes.EnvVar :=
  {| kubernetes.env_Name := kubernetes.Key b;
     kubernetes.env_Value := kubernetes.Value b |}.


(** A client that verifies nothing and caches nothing: verification is
    skipped, no CA bytes are cached, and the transport, if there is one,
    trusts no roots of its own and skips verification. *)
Definition insecure {URL : Type} (s : network.state URL) : Prop :=
  network.skipVerify (network.this s) = true
  ∧ network.caData (network.this s) = []
  ∧ ∀ t, network.Transport (network.this s) = Some t →
         network.RootCAs (network.TLSClientConfig t) = None
         ∧ network.InsecureSkipVerify (network.TLSClientConfig t) = true.

(** The environment [env] with [transport] in the place of [n.Do]. *)
Definition with_client_Do {URL Obj Target : Type}
    (env : network.Env URL Obj Target)
    (transport : network.client URL → network.Request
                 → error + network.Response)
  : network.Env URL Obj Target :=
  {| network.os_Stat := network.os_Stat env;
     network.time_Now := network.time_Now env;
     network.ioutil_ReadFile := network.ioutil_ReadFile env;
     network.os_IsNotExist := network.os_IsNotExist env;
     network.AppendCertsFromPEM := network.AppendCertsFromPEM env;
     network.pem_Encode := network.pem_Encode env;
     network.URL_Parse := network.URL_Parse env;
     network.URL_String := network.URL_String env;
     network.http_NewRequest := network.http_NewRequest env;
     network.client_Do := transport;
     network.json_Marshal := network.json_Marshal env;
     network.json_Decode := network.json_Decode env;
     network.UserAgent := network.UserAgent env |}.

(** The bytes of a string. *)
Definition bytes_of (s : string) : list ascii := list_ascii_of_string s.

(** The state a client is in before its first request. *)
Definition initial {URL : Type} (c : network.client URL) : network.state URL :=
  {| network.this := c; network.allocs := 0; network.logs := [] |}.

Module kube_scenario.

Import kubernetes.

Definition build : Pod :=
  {| Namespace := "ci"; Name := "runner-build"; Status := {| Phase := PodPending |} |}.

Definition fetched (ph : PodPhase) : Round :=
  {| get_result :=
       inr {| Namespace := "ci"; Name := "runner-build";
              Status := {| Phase := ph |} |};
     cancel_during := None;
     fetch_first := false;
     abandoned_after := 0 |}.

End kube_scenario.

Module net_scenario.

Import network.

(** A coordinator that answers every request with [res]; no CA file can
    be stat'ed or read. *)
Definition coordinator (res : Response) : Env string string string :=
  {| os_Stat := λ _, inl "no such file or directory";
     time_Now := 1%Z;
     ioutil_ReadFile := λ _, inl "no such file or directory";
     os_IsNotExist := λ _, true;
     AppendCertsFromPEM := λ _, false;
     pem_Encode := λ _, ("", None);
     URL_Parse := λ base ref, inr (base ++ ref);
     URL_String := λ u, u;
     http_NewRequest := λ method u body,
       inr {| Method := method; req_URL := u; req_Body := body;
              req_Header := ∅ |};
     client_Do := λ _ _, inr res;
     json_Marshal := λ o, inr (list_byte_of_string o);
     json_Decode := λ body _, (string_of_list_byte body, None);
     UserAgent := "gitlab-ci-multi-runner" |}.

Definition page (code : Z) (status contentType body : string) : Response :=
  {| StatusCode := code; Status := status;
     resp_Header := Header_Set ∅ "Content-Type" contentType;
     resp_Body := list_byte_of_string body;
     TLS := None |}.

Definition fresh : state string :=
  {| this := {| Transport := None;
                url := "https://gitlab.example.com/ci/api/v1/";
                caFile := ""; caData := []; skipVerify := true;
                updateTime := 0%Z |};
     allocs := 0; logs := [] |}.

Definition cert (raw signature : string) : Certificate :=
  {| Raw := list_byte_of_string raw;
     Signature := list_byte_of_string signature |}.

End net_scenario.

Module ca_scenario.

Import network.

(** A world in which the CA file stats as [stat] and reads as [file], a
    read error means a missing file if [missing], the bytes read hold a
    certificate if [certified], relative URLs resolve if [resolves], and
    the transport refuses every connection. *)
Definition world (stat : error + Time) (now : Time) (file : error + list byte)
    (missing certified resolves : bool) : Env string string string :=
  {| os_Stat := λ _, stat;
     time_Now := now;
     ioutil_ReadFile := λ _, file;
     os_IsNotExist := λ _, missing;
     AppendCertsFromPEM := λ _, certified;
     pem_Encode := λ _, ("", None);
     URL_Parse := λ base ref,
       if resolves then inr (base ++ ref) else inl "invalid URL escape";
     URL_String := λ u, u;
     http_NewRequest := λ method u body,
       inr {| Method := method; req_URL := u; req_Body := body;
              req_Header := ∅ |};
     client_Do := λ _ _, inl "connection refused";
     json_Marshal := λ o, inr (list_byte_of_string o);
     json_Decode := λ body t, (t, None);
     UserAgent := "gitlab-ci-multi-runner" |}.

(** A client that verifies against the CA file "ci.crt", before its first
    request. *)
Definition verifying : state string :=
  {| this := {| Transport := None; url := "https://ci/";
                caFile := "ci.crt"; caData := []; skipVerify := false;
                updateTime := 0%Z |};
     allocs := 0; logs := [] |}.

End ca_scenario.

(** * Properties *)

(** ** The library models at a few inputs *)

Example ParseQuantity_500m :
  resource.ParseQuantity "500m"
  = inr {| resource.Amount := {| resource.Unscaled := 500; resource.Scale := 3 |};
           resource.QFormat := resource.DecimalSI |}.
Proof. reflexivity. Qed.

Example ParseQuantity_50Mi :
  resource.ParseQuantity "50Mi"
  = inr {| resource.Amount := {| resource.Unscaled := 52428800; resource.Scale := 0 |};
           resource.QFormat := resource.BinarySI |}.
Proof. reflexivity. Qed.

Example ParseQuantity_fraction :
  (resource.Dec_value {| resource.Unscaled := 15; resource.Scale := 1 |} == 3 # 2)%Q
  ∧ resource.ParseQuantity "1.5"
    = inr {| resource.Amount := {| resource.Unscaled := 15; resource.Scale := 1 |};
             resource.QFormat := resource.DecimalSI |}.
Proof. split; reflexivity. Qed.

Example ParseQuantity_bad_suffix :
  resource.ParseQuantity "5 cores" = inl resource.ErrSuffix.
Proof. reflexivity. Qed.

Example TrimRight_slashes :
  go_strings.TrimRight "https://example.com///" "/" = "https://example.com"
  ∧ go_strings.TrimRight "///" "/" = ""
  ∧ go_strings.TrimRight "a/b" "/" = "a/b".
Proof. repeat split. Qed.

Example HasSuffix_ci :
  go_strings.HasSuffix "https://example.com/ci" "/ci" = true
  ∧ go_strings.HasSuffix "ci" "/ci" = false
  ∧ go_strings.HasSuffix "https://example.com/ci/" "/ci" = false.
Proof. repeat split. Qed.

Example EncodeToString_bytes :
  hex.EncodeToString (list_byte_of_string "Go!") = "476f21".
Proof. reflexivity. Qed.

(** ** The cluster connection resolver *)

Section GetKubeClientConfigProperties.

Import kubernetes.

Variable InClusterConfig : option restConfig * option error.

Lemma length_pos_iff (s : string) :
  (0 <? String.length s)%nat = true ↔ s ≠ "".
Proof.
  destruct s; simpl; split; try done.
Qed.

Lemma length_zero_iff (s : string) :
  (String.length s =? 0)%nat = true ↔ s = "".
Proof.
  destruct s; simpl; split; done.
Qed.

Lemma getKubeClientConfig_incomplete config :
  CertFile config ≠ "" →
  KeyFile config = "" ∨ CAFile config = "" →
  getKubeClientConfig InClusterConfig config = (None, Some errFileBasedAuth).
Proof.
  intros Hcert Hmissing. unfold getKubeClientConfig.
  apply length_pos_iff in Hcert. rewrite Hcert.
  destruct Hmissing as [-> | ->]; simpl; [done |].
  by rewrite orb_true_r.
Qed.

Lemma getKubeClientConfig_files config :
  CertFile config ≠ "" → KeyFile config ≠ "" → CAFile config ≠ "" →
  getKubeClientConfig InClusterConfig config
  = (Some {| rc_Host := Host config;
             rc_TLSClientConfig :=
               {| tls_CertFile := CertFile config;
                  tls_KeyFile := KeyFile config;
                  tls_CAFile := CAFile config |} |},
     None).
Proof.
  intros Hcert Hkey Hca. unfold getKubeClientConfig.
  apply length_pos_iff in Hcert. rewrite Hcert.
  destruct (KeyFile config); [done |].
  destruct (CAFile config); [done |]. done.
Qed.

Lemma getKubeClientConfig_host config :
  CertFile config = "" → Host config ≠ "" →
  getKubeClientConfig InClusterConfig config
  = (Some {| rc_Host := Host config;
             rc_TLSClientConfig := zeroTLSClientConfig |},
     None).
Proof.
  intros Hcert Hhost. unfold getKubeClientConfig. rewrite Hcert. simpl.
  apply length_pos_iff in Hhost. by rewrite Hhost.
Qed.

Lemma getKubeClientConfig_in_cluster config :
  CertFile config = "" → Host config = "" →
  getKubeClientConfig InClusterConfig config = InClusterConfig.
Proof.
  intros Hcert Hhost. unfold getKubeClientConfig.
  by rewrite Hcert, Hhost.
Qed.

End GetKubeClientConfigProperties.

(** C8.  [getKubeClientConfig] takes the first strategy that applies.
    With a certificate file and no key file or no CA file it returns no
    config and the file-based-auth error, whose message names the key file
    and the CA file; with all three files it returns the host and the three
    paths; with no certificate file but a host it returns the host alone;
    with neither it returns whatever in-cluster discovery returns. *)
Theorem getKubeClientConfig_precedence
    (InClusterConfig : option kubernetes.restConfig * option error)
    (config : kubernetes.KubernetesConfig) :
  let result := kubernetes.getKubeClientConfig InClusterConfig config in
  (kubernetes.CertFile config ≠ "" →
   kubernetes.KeyFile config = "" ∨ kubernetes.CAFile config = "" →
   result = (None, Some kubernetes.errFileBasedAuth)
   ∧ go_strings.Contains kubernetes.errFileBasedAuth "key file" = true
   ∧ go_strings.Contains kubernetes.errFileBasedAuth "ca file" = true)
  ∧ (kubernetes.CertFile config ≠ "" →
     kubernetes.KeyFile config ≠ "" →
     kubernetes.CAFile config ≠ "" →
     result
     = (Some {| kubernetes.rc_Host := kubernetes.Host config;
                kubernetes.rc_TLSClientConfig :=
                  {| kubernetes.tls_CertFile := kubernetes.CertFile config;
                     kubernetes.tls_KeyFile := kubernetes.KeyFile config;
                     kubernetes.tls_CAFile := kubernetes.CAFile config |} |},
        None))
  ∧ (kubernetes.CertFile config = "" →
     kubernetes.Host config ≠ "" →
     result
     = (Some {| kubernetes.rc_Host := kubernetes.Host config;
                kubernetes.rc_TLSClientConfig := kubernetes.zeroTLSClientConfig |},
        None))
  ∧ (kubernetes.CertFile config = "" →
     kubernetes.Host config = "" →
     result = InClusterConfig).
Proof.
  repeat split.
  - by apply getKubeClientConfig_incomplete.
  - by apply getKubeClientConfig_files.
  - by apply getKubeClientConfig_host.
  - by apply getKubeClientConfig_in_cluster.
Qed.

(** The resolver given only a certificate file: the error, and nothing
    else; and one configuration for each other strategy. *)
Lemma getKubeClientConfig_precedence_witness :
  let discovery : option kubernetes.restConfig * option error :=
    (None, Some "unable to load in-cluster configuration") in
  kubernetes.getKubeClientConfig discovery
    {| kubernetes.Host := ""; kubernetes.CertFile := "client.crt";
       kubernetes.KeyFile := ""; kubernetes.CAFile := "" |}
  = (None, Some kubernetes.errFileBasedAuth)
  ∧ fst (kubernetes.getKubeClientConfig discovery
       {| kubernetes.Host := "https://k8s"; kubernetes.CertFile := "client.crt";
          kubernetes.KeyFile := "client.key"; kubernetes.CAFile := "ca.crt" |})
    ≠ None
  ∧ fst (kubernetes.getKubeClientConfig discovery
       {| kubernetes.Host := "https://k8s"; kubernetes.CertFile := "";
          kubernetes.KeyFile := "client.key"; kubernetes.CAFile := "ca.crt" |})
    = Some {| kubernetes.rc_Host := "https://k8s";
              kubernetes.rc_TLSClientConfig := kubernetes.zeroTLSClientConfig |}
  ∧ kubernetes.getKubeClientConfig discovery
      {| kubernetes.Host := ""; kubernetes.CertFile := "";
         kubernetes.KeyFile := ""; kubernetes.CAFile := "" |}
    = discovery.
Proof.
  intros discovery. split; [| split; [| split]].
  - pose proof (getKubeClientConfig_precedence discovery
             {| kubernetes.Host := ""; kubernetes.CertFile := "client.crt";
                kubernetes.KeyFile := ""; kubernetes.CAFile := "" |}) as H.
    cbv zeta in H. destruct H as (H & _).
    refine (proj1 (H _ _)); simpl; [discriminate | left; reflexivity].
  - pose proof (getKubeClientConfig_precedence discovery
             {| kubernetes.Host := "https://k8s"; kubernetes.CertFile := "client.crt";
                kubernetes.KeyFile := "client.key"; kubernetes.CAFile := "ca.crt" |}) as H.
    cbv zeta in H. destruct H as (_ & H & _).
    rewrite H; simpl; discriminate.
  - pose proof (getKubeClientConfig_precedence discovery
             {| kubernetes.Host := "https://k8s"; kubernetes.CertFile := "";
                kubernetes.KeyFile := "client.key"; kubernetes.CAFile := "ca.crt" |}) as H.
    cbv zeta in H. destruct H as (_ & _ & H & _).
    rewrite H; simpl; [reflexivity | reflexivity | discriminate].
  - pose proof (getKubeClientConfig_precedence discovery
             {| kubernetes.Host := ""; kubernetes.CertFile := "";
                kubernetes.KeyFile := ""; kubernetes.CAFile := "" |}) as H.
    cbv zeta in H. destruct H as (_ & _ & _ & H).
    apply H; reflexivity.
Defined.

(** ** The resource spec builder *)

Section LimitsProperties.

Import kubernetes.

Variable ParseQuantity : string → error + resource.Quantity.

Lemma parse_empty : parse ParseQuantity "" = (None, None).
Proof. reflexivity. Qed.

Lemma parse_quantity s q :
  s ≠ "" → ParseQuantity s = inr q → parse ParseQuantity s = (Some q, None).
Proof.
  intros Hs Hq. unfold parse. rewrite Hq.
  by destruct s.
Qed.

Lemma parse_malformed s e :
  s ≠ "" → ParseQuantity s = inl e →
  parse ParseQuantity s = (None, Some ("error parsing resource limit: " ++ e)).
Proof.
  intros Hs He. unfold parse. rewrite He.
  by destruct s.
Qed.

(** The closure reports the failure, and [limits] drops it: a malformed
    CPU string gives the empty list and a nil error. *)
Lemma limits_with_malformed_cpu cpu memory e :
  cpu ≠ "" → ParseQuantity cpu = inl e →
  limits_with ParseQuantity cpu memory = (∅, None).
Proof.
  intros Hs He. unfold limits_with.
  by rewrite (parse_malformed _ _ Hs He).
Qed.

(** The same for the memory string, whatever the CPU string. *)
Lemma limits_with_malformed_memory cpu memory e :
  memory ≠ "" → ParseQuantity memory = inl e →
  limits_with ParseQuantity cpu memory = (∅, None).
Proof.
  intros Hs He. unfold limits_with.
  rewrite (parse_malformed _ _ Hs He).
  destruct (parse ParseQuantity cpu) as [rCPU [e'|]]; done.
Qed.

(** [limits] never returns an error. *)
Lemma limits_with_no_error cpu memory :
  snd (limits_with ParseQuantity cpu memory) = None.
Proof.
  unfold limits_with.
  destruct (parse ParseQuantity cpu) as [rCPU [e|]]; [done |].
  destruct (parse ParseQuantity memory) as [rMem [e|]]; done.
Qed.

(** What a well-formed argument contributes: nothing when empty, its
    parsed quantity otherwise. *)
Lemma parse_well_formed s :
  s = "" ∨ (∃ q, ParseQuantity s = inr q) →
  ∃ r, parse ParseQuantity s = (r, None)
       ∧ (s = "" → r = None)
       ∧ (∀ q, s ≠ "" → ParseQuantity s = inr q → r = Some q).
Proof.
  intros [-> | [q Hq]].
  - exists None. by rewrite parse_empty.
  - destruct (decide (s = "")) as [-> | Hs].
    + exists None. by rewrite parse_empty.
    + exists (Some q). rewrite (parse_quantity _ _ Hs Hq).
      split; [done |]. split; [done |]. congruence.
Qed.

Lemma limits_with_well_formed cpu memory :
  cpu = "" ∨ (∃ q, ParseQuantity cpu = inr q) →
  memory = "" ∨ (∃ q, ParseQuantity memory = inr q) →
  ∃ l : ResourceList,
    limits_with ParseQuantity cpu memory = (l, None)
    ∧ (cpu = "" → l !! ResourceLimitsCPU = None)
    ∧ (∀ q, cpu ≠ "" → ParseQuantity cpu = inr q →
            l !! ResourceLimitsCPU = Some q)
    ∧ (memory = "" → l !! ResourceLimitsMemory = None)
    ∧ (∀ q, memory ≠ "" → ParseQuantity memory = inr q →
            l !! ResourceLimitsMemory = Some q)
    ∧ (∀ k, k ≠ ResourceLimitsCPU → k ≠ ResourceLimitsMemory → l !! k = None).
Proof.
  intros Hcpu Hmem.
  destruct (parse_well_formed cpu Hcpu) as (rCPU & Ec & Hc0 & Hc1).
  destruct (parse_well_formed memory Hmem) as (rMem & Em & Hm0 & Hm1).
  unfold limits_with. rewrite Ec, Em.
  assert (ResourceLimitsCPU ≠ ResourceLimitsMemory) as Hne by done.
  eexists. split; [reflexivity |].
  repeat split.
  - intros E. rewrite (Hc0 E). destruct rMem; by simplify_map_eq.
  - intros q Hs Hq. rewrite (Hc1 q Hs Hq). destruct rMem; by simplify_map_eq.
  - intros E. rewrite (Hm0 E). destruct rCPU; by simplify_map_eq.
  - intros q Hs Hq. rewrite (Hm1 q Hs Hq). by simplify_map_eq.
  - intros k Hk1 Hk2. destruct rCPU, rMem; by simplify_map_eq.
Qed.

End LimitsProperties.

(** C1.  A malformed quantity string does not make [limits] report an
    error.  The string "lots" is not a quantity; as the CPU argument, and as
    the memory argument next to a good CPU argument, it makes [limits]
    return the empty resource list together with a nil error: the message
    the closure built is dropped. *)
Theorem limits_discards_parse_error :
  resource.ParseQuantity "lots" = inl resource.ErrFormatWrong
  ∧ kubernetes.parse resource.ParseQuantity "lots"
    = (None, Some ("error parsing resource limit: " ++ resource.ErrFormatWrong))
  ∧ kubernetes.limits "lots" "" = (∅, None)
  ∧ kubernetes.limits "500m" "lots" = (∅, None).
Proof.
  split; [reflexivity |]. split; [reflexivity |]. split.
  - by apply (limits_with_malformed_cpu _ _ _ resource.ErrFormatWrong).
  - by apply (limits_with_malformed_memory _ _ _ resource.ErrFormatWrong).
Qed.

(** C9.  For well-formed arguments, each one empty or accepted by the
    parser, [limits] returns with a nil error a list that holds under the
    CPU key the parsed CPU quantity if the CPU string is not empty and
    nothing if it is, likewise under the memory key, and nothing under any
    other key.  With the library's suffix notation, [limits "500m" "50Mi"]
    holds half a core and 50 * 1024 * 1024 bytes. *)
Theorem limits_well_formed :
  (∀ (ParseQuantity : string → error + resource.Quantity) (cpu memory : string),
     cpu = "" ∨ (∃ q, ParseQuantity cpu = inr q) →
     memory = "" ∨ (∃ q, ParseQuantity memory = inr q) →
     ∃ l : gmap string resource.Quantity,
       kubernetes.limits_with ParseQuantity cpu memory = (l, None)
       ∧ (cpu = "" → l !! kubernetes.ResourceLimitsCPU = None)
       ∧ (∀ q, cpu ≠ "" → ParseQuantity cpu = inr q →
               l !! kubernetes.ResourceLimitsCPU = Some q)
       ∧ (memory = "" → l !! kubernetes.ResourceLimitsMemory = None)
       ∧ (∀ q, memory ≠ "" → ParseQuantity memory = inr q →
               l !! kubernetes.ResourceLimitsMemory = Some q)
       ∧ (∀ k, k ≠ kubernetes.ResourceLimitsCPU →
               k ≠ kubernetes.ResourceLimitsMemory → l !! k = None))
  ∧ (∃ (l : gmap string resource.Quantity) (c m : resource.Quantity),
       kubernetes.limits "500m" "50Mi" = (l, None)
       ∧ l !! kubernetes.ResourceLimitsCPU = Some c
       ∧ l !! kubernetes.ResourceLimitsMemory = Some m
       ∧ (resource.Value c == 1 # 2)%Q
       ∧ (resource.Value m == inject_Z (50 * 1024 * 1024))%Q).
Proof.
  split.
  - apply limits_with_well_formed.
  - destruct (limits_with_well_formed resource.ParseQuantity "500m" "50Mi")
      as (l & El & _ & Hc & _ & Hm & _);
      [right; eexists; reflexivity | right; eexists; reflexivity |].
    eexists l, _, _. split; [exact El |].
    split; [apply Hc; [done | reflexivity] |].
    split; [apply Hm; [done | reflexivity] |].
    split; reflexivity.
Qed.

(** [limits] at a CPU string alone and at both strings. *)
Lemma limits_well_formed_witness :
  (∃ l : gmap string resource.Quantity,
     kubernetes.limits "250m" "" = (l, None)
     ∧ l !! kubernetes.ResourceLimitsMemory = None)
  ∧ (∃ l : gmap string resource.Quantity,
       kubernetes.limits "2" "1Gi" = (l, None)
       ∧ l !! "requests.cpu" = None).
Proof.
  split.
  - destruct (proj1 limits_well_formed resource.ParseQuantity "250m" "")
      as (l & El & _ & _ & Hm & _).
    + right. eexists. reflexivity.
    + left. reflexivity.
    + exists l. split; [exact El | apply Hm; reflexivity].
  - destruct (proj1 limits_well_formed resource.ParseQuantity "2" "1Gi")
      as (l & El & _ & _ & _ & _ & Hk).
    + right. eexists. reflexivity.
    + right. eexists. reflexivity.
    + exists l. split; [exact El | apply Hk; discriminate].
Defined.

(** ** The pod lifecycle waiter *)

Section WaitForPodRunningProperties.

Import kubernetes.

Lemma launches_app (t1 t2 : list Event) :
  launches (t1 ++ t2)%list = launches t1 + launches t2.
Proof.
  unfold launches. by rewrite List.filter_app, length_app.
Qed.

Lemma written_app (t1 t2 : list Event) :
  written (t1 ++ t2)%list = (written t1 ++ written t2)%list.
Proof.
  unfold written. apply omap_app.
Qed.

Lemma ctx_after_quiet (r : Round) :
  cancel_during r = None → ctx_after None r = None.
Proof. done. Qed.

Lemma select_quiet (r : Round) :
  cancel_during r = None → select None r = RecvFetch.
Proof.
  intros H. unfold select. by rewrite ctx_after_quiet.
Qed.

(** A fetch that reports a phase other than the three named ones writes
    one line, sleeps one second and asks for another iteration. *)
Lemma fetch_waiting (r : Round) :
  waiting_round r →
  ∃ line ph,
    fetch (get_result r)
    = ([EvWrite line; EvSleep (1 * Second)],
       {| done := false; phase := ph; err := None |}).
Proof.
  intros (_ & pod & -> & Hr & Hs & Hf). unfold fetch.
  apply String.eqb_neq in Hr, Hs, Hf. rewrite Hr, Hs, Hf.
  eauto.
Qed.

(** One waiting round costs one launch and one line, and the loop goes
    on with the rounds that follow. *)
Lemma waitForPodRunning_waiting_step pod (r : Round) (rounds : list Round) :
  waiting_round r →
  ∃ events,
    launches events = 1 ∧ length (written events) = 1 ∧
    waitForPodRunning None pod (r :: rounds)
    = (fst (waitForPodRunning None pod rounds),
       (events ++ snd (waitForPodRunning None pod rounds))%list).
Proof.
  intros Hw. destruct (fetch_waiting r Hw) as (line & ph & Hfetch).
  destruct Hw as (Hquiet & _).
  exists [EvLaunchFetch (Namespace pod) (Name pod);
          EvWrite line; EvSleep (1 * Second)].
  split; [done |]. split; [done |].
  simpl. rewrite (select_quiet r Hquiet), Hfetch. simpl.
  rewrite Hquiet.
  by destruct (waitForPodRunning None pod rounds).
Qed.

(** Any number of waiting rounds: as many launches and lines, then the
    rest of the run. *)
Lemma waitForPodRunning_waiting_prefix pod (pre rounds : list Round) :
  Forall waiting_round pre →
  ∃ events,
    launches events = length pre ∧ length (written events) = length pre ∧
    waitForPodRunning None pod (pre ++ rounds)%list
    = (fst (waitForPodRunning None pod rounds),
       (events ++ snd (waitForPodRunning None pod rounds))%list).
Proof.
  induction 1 as [| r pre Hr Hpre (events & Hl & Hw & IH)].
  - exists []. repeat split. simpl.
    by destruct (waitForPodRunning None pod rounds).
  - destruct (waitForPodRunning_waiting_step pod r (pre ++ rounds)%list Hr)
      as (step & Hl1 & Hw1 & Hstep).
    exists (step ++ events)%list. split; [| split].
    + rewrite launches_app. simpl. lia.
    + rewrite written_app, length_app. simpl. lia.
    + change ((r :: pre) ++ rounds)%list with (r :: pre ++ rounds)%list.
      rewrite Hstep, IH. simpl. by rewrite <- app_assoc.
Qed.

(** A round whose fetch is received and is final ends the run there. *)
Lemma waitForPodRunning_final pod (r : Round) (rounds : list Round) result :
  cancel_during r = None →
  fetch (get_result r)
  = ([], {| done := true; phase := fst result; err := snd result |}) →
  waitForPodRunning None pod (r :: rounds)
  = (Some result, [EvLaunchFetch (Namespace pod) (Name pod)]).
Proof.
  intros Hquiet Hfetch. simpl.
  rewrite (select_quiet r Hquiet), Hfetch. simpl.
  by destruct result.
Qed.

Lemma waitForPodRunning_after_waiting pod pre (r : Round) rounds result :
  Forall waiting_round pre →
  cancel_during r = None →
  fetch (get_result r)
  = ([], {| done := true; phase := fst result; err := snd result |}) →
  fst (waitForPodRunning None pod (pre ++ r :: rounds)%list) = Some result
  ∧ launches (snd (waitForPodRunning None pod (pre ++ r :: rounds)%list))
    = S (length pre)
  ∧ length (written (snd (waitForPodRunning None pod (pre ++ r :: rounds)%list)))
    = length pre.
Proof.
  intros Hpre Hquiet Hfetch.
  destruct (waitForPodRunning_waiting_prefix pod pre (r :: rounds) Hpre)
    as (events & Hl & Hw & ->).
  rewrite (waitForPodRunning_final pod r rounds result Hquiet Hfetch).
  simpl. rewrite launches_app, written_app, length_app. simpl.
  split; [done |].
  change (launches [EvLaunchFetch (Namespace pod) (Name pod)]) with 1.
  split; lia.
Qed.

End WaitForPodRunningProperties.

(** C7.  While nobody cancels: after any number of rounds whose fetch
    reports a phase that is none of Running, Succeeded and Failed, the first
    fetch that fails makes the waiter return Unknown with the fetch's
    error; that reports Running, Running with no error; Succeeded,
    Succeeded with the early-completion error; Failed, Failed with the
    failure error.  The waiter returns at that fetch: it has launched one
    fetch per waiting round and one more, and written one line per waiting
    round. *)
Theorem waitForPodRunning_returns_at_final_fetch
    (pod : kubernetes.Pod) (pre : list kubernetes.Round)
    (r : kubernetes.Round) (rounds : list kubernetes.Round) :
  Forall waiting_round pre →
  kubernetes.cancel_during r = None →
  let run := kubernetes.waitForPodRunning None pod (pre ++ r :: rounds)%list in
  (∀ e, kubernetes.get_result r = inl e →
        fst run = Some (kubernetes.PodUnknown, Some e))
  ∧ (∀ p, kubernetes.get_result r = inr p →
          kubernetes.Phase (kubernetes.Status p) = kubernetes.PodRunning →
          fst run = Some (kubernetes.PodRunning, None))
  ∧ (∀ p, kubernetes.get_result r = inr p →
          kubernetes.Phase (kubernetes.Status p) = kubernetes.PodSucceeded →
          fst run = Some (kubernetes.PodSucceeded,
                          Some kubernetes.errAlreadySucceeded))
  ∧ (∀ p, kubernetes.get_result r = inr p →
          kubernetes.Phase (kubernetes.Status p) = kubernetes.PodFailed →
          fst run = Some (kubernetes.PodFailed,
                          Some kubernetes.errStatusFailed))
  ∧ (¬ waiting_round r →
     kubernetes.launches (snd run) = S (length pre)
     ∧ length (kubernetes.written (snd run)) = length pre).
Proof.
  intros Hpre Hquiet run. subst run.
  split; [| split; [| split; [| split]]].
  - intros e He.
    apply (waitForPodRunning_after_waiting pod pre r rounds
             (kubernetes.PodUnknown, Some e) Hpre Hquiet).
    by rewrite He.
  - intros p Hp Hph.
    apply (waitForPodRunning_after_waiting pod pre r rounds
             (kubernetes.PodRunning, None) Hpre Hquiet).
    rewrite Hp. unfold kubernetes.fetch. by rewrite Hph.
  - intros p Hp Hph.
    apply (waitForPodRunning_after_waiting pod pre r rounds
             (kubernetes.PodSucceeded, Some kubernetes.errAlreadySucceeded)
             Hpre Hquiet).
    rewrite Hp. unfold kubernetes.fetch. by rewrite Hph.
  - intros p Hp Hph.
    apply (waitForPodRunning_after_waiting pod pre r rounds
             (kubernetes.PodFailed, Some kubernetes.errStatusFailed)
             Hpre Hquiet).
    rewrite Hp. unfold kubernetes.fetch. by rewrite Hph.
  - intros Hfinal.
    assert (∃ result,
      kubernetes.fetch (kubernetes.get_result r)
      = ([], {| kubernetes.done := true; kubernetes.phase := fst result;
                kubernetes.err := snd result |})) as [result Hfetch].
    { destruct (kubernetes.get_result r) as [e | p] eqn:Hget.
      - by exists (kubernetes.PodUnknown, Some e).
      - unfold kubernetes.fetch.
        destruct (String.eqb_spec (kubernetes.Phase (kubernetes.Status p))
                    kubernetes.PodRunning) as [Hr | Hr];
          [by eexists (_, _) |].
        destruct (String.eqb_spec (kubernetes.Phase (kubernetes.Status p))
                    kubernetes.PodSucceeded) as [Hs | Hs];
          [by eexists (_, _) |].
        destruct (String.eqb_spec (kubernetes.Phase (kubernetes.Status p))
                    kubernetes.PodFailed) as [Hf | Hf];
          [by eexists (_, _) |].
        destruct Hfinal. split; [done |]. by exists p. }
    apply (waitForPodRunning_after_waiting pod pre r rounds result
             Hpre Hquiet Hfetch).
Qed.

(** Three Pending fetches and then Running; Succeeded at once. *)
Lemma waitForPodRunning_returns_at_final_fetch_witness :
  fst (kubernetes.waitForPodRunning None kube_scenario.build
         [kube_scenario.fetched kubernetes.PodPending;
          kube_scenario.fetched kubernetes.PodPending;
          kube_scenario.fetched kubernetes.PodPending;
          kube_scenario.fetched kubernetes.PodRunning])
  = Some (kubernetes.PodRunning, None)
  ∧ fst (kubernetes.waitForPodRunning None kube_scenario.build
           [kube_scenario.fetched kubernetes.PodSucceeded])
    = Some (kubernetes.PodSucceeded, Some kubernetes.errAlreadySucceeded).
Proof.
  assert (waiting_round (kube_scenario.fetched kubernetes.PodPending)) as Hw.
  { split; [reflexivity |]. eexists. split; [reflexivity |]. done. }
  split.
  - pose proof (waitForPodRunning_returns_at_final_fetch
      kube_scenario.build
      [kube_scenario.fetched kubernetes.PodPending;
       kube_scenario.fetched kubernetes.PodPending;
       kube_scenario.fetched kubernetes.PodPending]
      (kube_scenario.fetched kubernetes.PodRunning) []
      (@List.Forall_cons _ _ _ _ Hw (@List.Forall_cons _ _ _ _ Hw
         (@List.Forall_cons _ _ _ _ Hw (@List.Forall_nil _ _))))
      eq_refl) as H.
    cbv zeta in H. destruct H as (_ & H & _).
    exact (H _ eq_refl eq_refl).
  - pose proof (waitForPodRunning_returns_at_final_fetch
      kube_scenario.build []
      (kube_scenario.fetched kubernetes.PodSucceeded) []
      (@List.Forall_nil _ _) eq_refl) as H.
    cbv zeta in H. destruct H as (_ & _ & H & _).
    exact (H _ eq_refl eq_refl).
Defined.

(** With the context cancelled before the call, the first iteration has
    launched its fetch by the time the [select] looks at [ctx.Done()]. *)
Lemma waitForPodRunning_launches_first
    (ctx : kubernetes.Context) (pod : kubernetes.Pod)
    (r : kubernetes.Round) (rounds : list kubernetes.Round) :
  ∃ trace,
    snd (kubernetes.waitForPodRunning ctx pod (r :: rounds))
    = kubernetes.EvLaunchFetch (kubernetes.Namespace pod) (kubernetes.Name pod)
      :: trace.
Proof.
  simpl. destruct (kubernetes.select ctx r).
  - destruct (kubernetes.fetch (kubernetes.get_result r)) as [events r'].
    destruct (kubernetes.done r'); [by eexists |].
    destruct (kubernetes.waitForPodRunning _ pod rounds). by eexists.
  - by eexists.
Qed.

(** What a fetch does on its own launches nothing, and writes at most one
    line. *)
Lemma fetch_events (got : error + kubernetes.Pod) (n : nat) :
  kubernetes.launches (take n (fst (kubernetes.fetch got))) = 0
  ∧ (length (kubernetes.written (take n (fst (kubernetes.fetch got)))) ≤ 1)%nat.
Proof.
  assert (kubernetes.launches (take n []) = 0
          ∧ (length (kubernetes.written (take n [])) ≤ 1)%nat) as Hnil.
  { rewrite take_nil. split; [done | simpl; lia]. }
  destruct got as [e | pod]; simpl; [exact Hnil |].
  destruct (String.eqb _ kubernetes.PodRunning); [exact Hnil |].
  destruct (String.eqb _ kubernetes.PodSucceeded); [exact Hnil |].
  destruct (String.eqb _ kubernetes.PodFailed); [exact Hnil |].
  destruct n as [| [| n]]; simpl; rewrite ?take_nil;
    (split; [reflexivity | simpl; lia]).
Qed.

(** C3, as the code has it.  Called with a context that is already
    cancelled, the waiter launches the first iteration's fetch all the same;
    when the [select] then takes the cancellation case, it returns in that
    iteration with phase Unknown and the context's error, having launched
    that one fetch and no other, and without waiting for it: the trace is
    the launch followed by what the fetch had done on its own by then. *)
Theorem waitForPodRunning_already_cancelled
    (e : error) (pod : kubernetes.Pod)
    (r : kubernetes.Round) (rounds : list kubernetes.Round) :
  kubernetes.fetch_first r = false →
  let run := kubernetes.waitForPodRunning (Some e) pod (r :: rounds) in
  fst run = Some (kubernetes.PodUnknown, Some e)
  ∧ kubernetes.launches (snd run) = 1
  ∧ snd run
    = kubernetes.EvLaunchFetch (kubernetes.Namespace pod) (kubernetes.Name pod)
      :: take (kubernetes.abandoned_after r)
           (fst (kubernetes.fetch (kubernetes.get_result r))).
Proof.
  intros Hdone run. subst run.
  cbn [kubernetes.waitForPodRunning]. unfold kubernetes.select. simpl.
  rewrite Hdone. simpl. split; [done |]. split; [| done].
  change (kubernetes.launches (?x :: ?l)) with (S (kubernetes.launches l)).
  by rewrite (proj1 (fetch_events _ _)).
Qed.

Lemma waitForPodRunning_already_cancelled_witness :
  kubernetes.waitForPodRunning (Some "context canceled") kube_scenario.build
    [kube_scenario.fetched kubernetes.PodRunning]
  = (Some (kubernetes.PodUnknown, Some "context canceled"),
     [kubernetes.EvLaunchFetch "ci" "runner-build"]).
Proof.
  pose proof (waitForPodRunning_already_cancelled "context canceled"
    kube_scenario.build (kube_scenario.fetched kubernetes.PodRunning) []
    eq_refl) as H.
  cbv zeta in H. destruct H as (Hresult & _ & Htrace).
  apply injective_projections; [exact Hresult | exact Htrace].
Defined.

(** C3, as the claim has it, fails: the run with an already cancelled
    context returns Unknown and the context's error, and one fetch was
    launched, not none. *)
Lemma waitForPodRunning_cancelled_still_fetches :
  let run :=
    kubernetes.waitForPodRunning (Some "context canceled") kube_scenario.build
      [kube_scenario.fetched kubernetes.PodPending] in
  fst run = Some (kubernetes.PodUnknown, Some "context canceled")
  ∧ kubernetes.launches (snd run) = 1
  ∧ ¬ (kubernetes.launches (snd run) = 0).
Proof.
  split; [reflexivity |]. split; [reflexivity | discriminate].
Qed.

(** If the fetch's send is ready when the [select] runs and is the case
    taken, the fetch's result is returned although the context was
    cancelled before the call. *)
Example waitForPodRunning_cancelled_fetch_taken :
  fst (kubernetes.waitForPodRunning (Some "context canceled") kube_scenario.build
         [ {| kubernetes.get_result := kubernetes.get_result
                                         (kube_scenario.fetched kubernetes.PodRunning);
              kubernetes.cancel_during := None;
              kubernetes.fetch_first := true;
              kubernetes.abandoned_after := 0 |} ])
  = Some (kubernetes.PodRunning, None).
Proof. reflexivity. Qed.

(** ** URL normalization *)

Section FixCIURLProperties.

Import go_strings.

Lemma app_cons (c : ascii) (s t : string) :
  String c s ++ t = String c (s ++ t).
Proof. reflexivity. Qed.

Lemma app_empty_l (t : string) : "" ++ t = t.
Proof. reflexivity. Qed.

Lemma length_app_string (s t : string) :
  String.length (s ++ t) = String.length s + String.length t.
Proof.
  induction s as [| c s IH]; [done |].
  rewrite app_cons. simpl. by rewrite IH.
Qed.

Lemma substring_all (s : string) :
  String.substring 0 (String.length s) s = s.
Proof.
  induction s as [| c s IH]; [done |]. simpl. by rewrite IH.
Qed.

Lemma substring_skip (p s : string) (m : nat) :
  String.substring (String.length p) m (p ++ s) = String.substring 0 m s.
Proof.
  induction p as [| c p IH]; [done |].
  rewrite app_cons. simpl. exact IH.
Qed.

(** A string is its first [n] bytes followed by the rest. *)
Lemma substring_split (s : string) (n : nat) :
  (n ≤ String.length s)%nat →
  s = String.substring 0 n s
      ++ String.substring n (String.length s - n) s.
Proof.
  revert n. induction s as [| c s IH]; intros [| n] Hn; simpl in *;
    try done; try lia.
  - rewrite app_empty_l. by rewrite substring_all.
  - rewrite app_cons. f_equal. apply IH. lia.
Qed.

Lemma HasSuffix_app (p suffix : string) :
  HasSuffix (p ++ suffix) suffix = true.
Proof.
  unfold HasSuffix. rewrite length_app_string.
  apply andb_true_iff. split.
  - apply Nat.leb_le. lia.
  - replace (String.length p + String.length suffix - String.length suffix)
      with (String.length p) by lia.
    rewrite substring_skip, substring_all. apply String.eqb_refl.
Qed.

Lemma HasSuffix_inv (s suffix : string) :
  HasSuffix s suffix = true → ∃ p, s = p ++ suffix.
Proof.
  unfold HasSuffix. intros [Hlen Heq]%andb_true_iff.
  apply Nat.leb_le in Hlen. apply String.eqb_eq in Heq.
  exists (String.substring 0 (String.length s - String.length suffix) s).
  pose proof (substring_split s (String.length s - String.length suffix))
    as Hsplit.
  replace (String.length s - (String.length s - String.length suffix))
    with (String.length suffix) in Hsplit by lia.
  rewrite Heq in Hsplit. apply Hsplit. lia.
Qed.

(** Nothing is trimmed in front of an ending that is kept. *)
Lemma TrimRight_kept (p t cutset : string) :
  t ≠ "" → TrimRight t cutset = t →
  TrimRight (p ++ t) cutset = p ++ t.
Proof.
  intros Ht Hkeep. induction p as [| c p IH]; [done |].
  rewrite app_cons. simpl. rewrite IH.
  destruct (p ++ t) as [| d u] eqn:E; [| done].
  destruct p; [by rewrite app_empty_l in E | by rewrite app_cons in E].
Qed.

(** A slash at the end is trimmed with the slashes before it. *)
Lemma TrimRight_slash (s : string) :
  TrimRight (s ++ "/") "/" = TrimRight s "/".
Proof.
  induction s as [| c s IH]; [done |].
  rewrite app_cons. simpl. by rewrite IH.
Qed.

Lemma TrimRight_ci (p : string) :
  TrimRight (p ++ "/ci") "/" = p ++ "/ci".
Proof. by apply TrimRight_kept. Qed.

(** The result always ends in "/ci". *)
Lemma fixCIURL_suffix (url : string) :
  ∃ p, network.fixCIURL url = p ++ "/ci".
Proof.
  unfold network.fixCIURL.
  destruct (HasSuffix (TrimRight url "/") "/ci") eqn:E; simpl.
  - by apply HasSuffix_inv.
  - by eexists.
Qed.

(** A string that ends in "/ci" is left as it is. *)
Lemma fixCIURL_fixed (p : string) :
  network.fixCIURL (p ++ "/ci") = p ++ "/ci".
Proof.
  unfold network.fixCIURL. rewrite TrimRight_ci.
  by rewrite HasSuffix_app.
Qed.

End FixCIURLProperties.

(** C4.  [fixCIURL] is idempotent.  It gives the same result with and
    without one more trailing slash; the result is the input without its
    trailing slashes, followed by "/ci" unless that is how it already ends,
    so "/ci" is appended at most once and the result always ends in it;
    "https://example.com/" becomes "https://example.com/ci", which is
    left unchanged. *)
Theorem fixCIURL_idempotent (url : string) :
  network.fixCIURL (network.fixCIURL url) = network.fixCIURL url
  ∧ network.fixCIURL (url ++ "/") = network.fixCIURL url
  ∧ go_strings.HasSuffix (network.fixCIURL url) "/ci" = true
  ∧ (if go_strings.HasSuffix (go_strings.TrimRight url "/") "/ci"
     then network.fixCIURL url = go_strings.TrimRight url "/"
     else network.fixCIURL url = go_strings.TrimRight url "/" ++ "/ci")
  ∧ network.fixCIURL "https://example.com/" = "https://example.com/ci"
  ∧ network.fixCIURL "https://example.com/ci" = "https://example.com/ci".
Proof.
  split; [| split; [| split; [| split]]].
  - destruct (fixCIURL_suffix url) as [p ->]. apply fixCIURL_fixed.
  - unfold network.fixCIURL. by rewrite TrimRight_slash.
  - destruct (fixCIURL_suffix url) as [p ->]. apply HasSuffix_app.
  - unfold network.fixCIURL.
    by destruct (go_strings.HasSuffix (go_strings.TrimRight url "/") "/ci").
  - split; reflexivity.
Qed.

(** ** The adaptive TLS transport *)

Section EnsureTLSConfigProperties.

Import network.

Context {URL Obj Target : Type}.
Variable env : Env URL Obj Target.

(** [createTransport] allocates one transport, at the next free address,
    and installs it; it leaves [updateTime] alone. *)
Lemma createTransport_builds (s : state URL) :
  allocs (createTransport env s) = S (allocs s)
  ∧ (∃ t, Transport (this (createTransport env s)) = Some t
          ∧ addr t = allocs s)
  ∧ updateTime (this (createTransport env s)) = updateTime (this s).
Proof.
  unfold createTransport.
  destruct (negb (String.eqb (caFile (this s)) "") && negb (skipVerify (this s))).
  - destruct (ioutil_ReadFile env (caFile (this s))) as [e | data].
    + destruct (negb (os_IsNotExist env e)); simpl; eauto.
    + destruct (AppendCertsFromPEM env data); simpl; eauto.
  - simpl; eauto.
Qed.

Lemma rebuild_due_dec (s : state URL) :
  rebuild_due env s ∨ ¬ rebuild_due env s.
Proof.
  unfold rebuild_due.
  destruct (Transport (this s)) as [t |]; [| by left; left].
  destruct (os_Stat env (caFile (this s))) as [e | modTime].
  - right. intros [? | (m & ? & _)]; done.
  - destruct (decide (updateTime (this s) < modTime)%Z) as [Hlt | Hge].
    + left. right. by exists modTime.
    + right. intros [? | (m & [= <-] & ?)]; done.
Qed.

(** When a build is due, [ensureTLSConfig] drops the transport, stamps
    the client with the current time and builds. *)
Lemma ensureTLSConfig_due (s : state URL) :
  rebuild_due env s →
  ensureTLSConfig env s
  = createTransport env
      (set_this s
         (set_updateTime (set_Transport (this s) None) (time_Now env))).
Proof.
  destruct s as [[transport u file data skip stamp] n lines].
  unfold rebuild_due, ensureTLSConfig, Before. simpl.
  intros Hdue.
  destruct (os_Stat env file) as [e | modTime].
  - destruct Hdue as [-> | (m & ? & _)]; [done | congruence].
  - destruct (Z.ltb_spec stamp modTime) as [Hlt | Hge]; [done |].
    destruct Hdue as [-> | (m & [= <-] & ?)]; [done | lia].
Qed.

(** When no build is due, nothing changes. *)
Lemma ensureTLSConfig_not_due (s : state URL) :
  ¬ rebuild_due env s → ensureTLSConfig env s = s.
Proof.
  intros Hnot. unfold ensureTLSConfig, rebuild_due in *.
  destruct (Transport (this s)) as [t |] eqn:Ht; [| by destruct Hnot; left].
  destruct (os_Stat env (caFile (this s))) as [e | modTime] eqn:Hstat.
  - by rewrite Ht.
  - unfold Before.
    destruct (Z.ltb_spec (updateTime (this s)) modTime) as [Hlt | Hge].
    + destruct Hnot. right. by exists modTime.
    + by rewrite Ht.
Qed.

End EnsureTLSConfigProperties.

(** C5.  [ensureTLSConfig] builds a transport exactly when one is due:
    when the client has none, or when the CA file can be stat'ed and its
    modification time is strictly after [updateTime].  Then one transport
    is allocated, at a fresh address, it becomes the client's transport,
    and [updateTime] becomes the current time.  Otherwise, and so whenever
    a transport exists and the CA file cannot be stat'ed, the client, its
    transport included, and everything around it are left as they were. *)
Theorem ensureTLSConfig_rebuilds_iff_due
    {URL Obj Target : Type} (env : network.Env URL Obj Target)
    (s : network.state URL) :
  let s' := network.ensureTLSConfig env s in
  (network.allocs s' ≠ network.allocs s ↔ network.rebuild_due env s)
  ∧ (network.rebuild_due env s →
     network.allocs s' = S (network.allocs s)
     ∧ (∃ t, network.Transport (network.this s') = Some t
             ∧ network.addr t = network.allocs s)
     ∧ network.updateTime (network.this s') = network.time_Now env)
  ∧ (¬ network.rebuild_due env s → s' = s)
  ∧ (∀ e t, network.os_Stat env (network.caFile (network.this s)) = inl e →
            network.Transport (network.this s) = Some t →
            s' = s).
Proof.
  intros s'. subst s'.
  assert (network.rebuild_due env s →
     network.allocs (network.ensureTLSConfig env s) = S (network.allocs s)
     ∧ (∃ t, network.Transport (network.this (network.ensureTLSConfig env s))
             = Some t
             ∧ network.addr t = network.allocs s)
     ∧ network.updateTime (network.this (network.ensureTLSConfig env s))
       = network.time_Now env) as Hbuild.
  { intros Hdue.
    rewrite (ensureTLSConfig_due env s Hdue).
    destruct (createTransport_builds env
      (network.set_this s
         (network.set_updateTime
            (network.set_Transport (network.this s) None)
            (network.time_Now env)))) as (Ha & Ht & Hu).
    done. }
  split; [| split; [| split]].
  - split.
    + intros Hchanged. destruct (rebuild_due_dec env s) as [Hdue | Hnot]; [done |].
      by rewrite (ensureTLSConfig_not_due env s Hnot) in Hchanged.
    + intros Hdue. destruct (Hbuild Hdue) as (-> & _). lia.
  - exact Hbuild.
  - apply ensureTLSConfig_not_due.
  - intros e t Hstat Ht. apply ensureTLSConfig_not_due.
    intros [Hnone | (m & Hm & _)]; congruence.
Qed.

(** A client without a transport gets one at address 0. *)
Lemma ensureTLSConfig_rebuilds_iff_due_witness :
  network.allocs
    (network.ensureTLSConfig
       (net_scenario.coordinator (net_scenario.page 200 "200 OK" "text/html" ""))
       net_scenario.fresh)
  = 1.
Proof.
  apply (ensureTLSConfig_rebuilds_iff_due
           (net_scenario.coordinator (net_scenario.page 200 "200 OK" "text/html" ""))
           net_scenario.fresh).
  left. reflexivity.
Defined.

(** ** Trust-chain extraction *)

Section HexProperties.

Lemma hex_byte_roundtrip (v : byte) :
  Byte.of_N (N.shiftl (hex.fromHexChar (hex.digit (N.shiftr (Byte.to_N v) 4))) 4
             + hex.fromHexChar (hex.digit (N.land (Byte.to_N v) 15)))
  = Some v.
Proof. destruct v; vm_compute; reflexivity. Qed.

Lemma hex_roundtrip (src : list byte) :
  hex.DecodeString (hex.EncodeToString src) = src.
Proof.
  induction src as [| v src IH]; [done |].
  cbn [hex.EncodeToString hex.DecodeString].
  by rewrite hex_byte_roundtrip, IH.
Qed.

(** Two signatures with the same hexadecimal form are the same. *)
Lemma EncodeToString_inj (a b : list byte) :
  hex.EncodeToString a = hex.EncodeToString b → a = b.
Proof.
  intros H. rewrite <- (hex_roundtrip a), <- (hex_roundtrip b).
  by rewrite H.
Qed.

End HexProperties.

Section FirstSeenProperties.

Import network.

Lemma first_seen_elem seen (l : list Certificate) c :
  c ∈ first_seen seen l → c ∈ l ∧ Signature c ∉ seen.
Proof.
  revert seen. induction l as [| d l IH]; intros seen; simpl.
  - by intros ?%elem_of_nil.
  - destruct (decide (Signature d ∈ seen)) as [Hin | Hout].
    + intros [? ?]%IH. split; [by right | done].
    + intros [-> | Hc]%elem_of_cons.
      * split; [by left | done].
      * apply IH in Hc as [? Hc]. split; [by right |].
        intros ?. apply Hc. by right.
Qed.

(** No signature occurs twice. *)
Lemma first_seen_NoDup seen (l : list Certificate) :
  NoDup (Signature <$> first_seen seen l).
Proof.
  revert seen. induction l as [| d l IH]; intros seen; simpl.
  - constructor.
  - destruct (decide (Signature d ∈ seen)) as [Hin | Hout]; [apply IH |].
    rewrite fmap_cons. constructor; [| apply IH].
    intros (c & Hsig & Hc)%list_elem_of_fmap.
    apply first_seen_elem in Hc as [_ Hc].
    apply Hc. rewrite Hsig. by left.
Qed.

(** The order of [l] is kept. *)
Lemma first_seen_sublist seen (l : list Certificate) :
  first_seen seen l `sublist_of` l.
Proof.
  revert seen. induction l as [| d l IH]; intros seen; simpl.
  - constructor.
  - destruct (decide (Signature d ∈ seen)).
    + by apply sublist_cons.
    + by apply sublist_skip.
Qed.

(** Every signature of [l] is already seen or is kept. *)
Lemma first_seen_covers seen (l : list Certificate) c :
  c ∈ l →
  Signature c ∈ seen ∨ Signature c ∈ Signature <$> first_seen seen l.
Proof.
  revert seen. induction l as [| d l IH]; intros seen; simpl.
  - by intros ?%elem_of_nil.
  - intros [-> | Hc]%elem_of_cons.
    + destruct (decide (Signature d ∈ seen)); [by left |].
      right. rewrite fmap_cons. by left.
    + destruct (decide (Signature d ∈ seen)); [by apply IH |].
      destruct (IH (Signature d :: seen) Hc) as [Hs | Hs].
      * apply elem_of_cons in Hs as [-> | Hs]; [| by left].
        right. rewrite fmap_cons. by left.
      * right. rewrite fmap_cons. by right.
Qed.

(** The certificate kept for a signature is the first that carries it. *)
Lemma first_seen_first seen (l1 l2 : list Certificate) c :
  Signature c ∉ seen →
  Signature c ∉ Signature <$> l1 →
  c ∈ first_seen seen (l1 ++ c :: l2)%list.
Proof.
  revert seen. induction l1 as [| d l1 IH]; intros seen Hseen Hl1; simpl.
  - rewrite decide_False by done. by left.
  - rewrite fmap_cons in Hl1.
    apply not_elem_of_cons in Hl1 as [Hd Hl1].
    destruct (decide (Signature d ∈ seen)); [by apply IH |].
    right. apply IH; [| done].
    intros [? | ?]%elem_of_cons; done.
Qed.

End FirstSeenProperties.

Section GetCAChainProperties.

Import network.

Context {URL Obj Target : Type}.
Variable env : Env URL Obj Target.

Lemma marks_empty : marks ∅ [].
Proof.
  intros signature. rewrite lookup_empty. simpl. split; [done |].
  by intros ?%elem_of_nil.
Qed.

Lemma marks_insert seenCertificates seen signature :
  marks seenCertificates seen →
  marks (<[hex.EncodeToString signature := true]> seenCertificates)
        (signature :: seen).
Proof.
  intros Hmarks other.
  destruct (decide (hex.EncodeToString signature = hex.EncodeToString other))
    as [Heq | Hne].
  - rewrite Heq, lookup_insert_eq. simpl.
    apply EncodeToString_inj in Heq as ->. split; [by left | done].
  - rewrite lookup_insert_ne by done. rewrite elem_of_cons.
    specialize (Hmarks other). split.
    + intros H. right. by apply Hmarks.
    + intros [-> | H]; [done | by apply Hmarks].
Qed.

(** The first loop keeps the first certificate of each new signature. *)
Lemma fold_see (l : list Certificate) certificates seenCertificates seen :
  marks seenCertificates seen →
  ∃ seenCertificates',
    fold_left see l (certificates, seenCertificates)
    = ((certificates ++ first_seen seen l)%list, seenCertificates')
    ∧ marks seenCertificates'
        ((Signature <$> first_seen seen l) ++ seen)%list.
Proof.
  revert certificates seenCertificates seen.
  induction l as [| c l IH]; intros certificates seenCertificates seen Hmarks.
  - exists seenCertificates. simpl. by rewrite app_nil_r.
  - simpl. destruct (decide (Signature c ∈ seen)) as [Hin | Hout].
    + apply Hmarks in Hin as Hseen. rewrite Hseen. by apply IH.
    + assert (default false
                (seenCertificates !! hex.EncodeToString (Signature c))
              = false) as ->.
      { destruct (default false _) eqn:E; [| done].
        by apply Hmarks in E. }
      destruct (IH (certificates ++ [c])%list
                  (<[hex.EncodeToString (Signature c) := true]> seenCertificates)
                  (Signature c :: seen)
                  (marks_insert _ _ _ Hmarks))
        as (seenCertificates' & -> & Hmarks').
      exists seenCertificates'. rewrite <- app_assoc. split; [done |].
      intros signature. specialize (Hmarks' signature).
      rewrite fmap_cons.
      rewrite elem_of_app, elem_of_cons in Hmarks'.
      rewrite elem_of_app, elem_of_cons. tauto.
Qed.

Lemma fold_chains (chains : list (list Certificate)) acc :
  fold_left (λ acc verifiedChain, fold_left see verifiedChain acc) chains acc
  = fold_left see (concat chains) acc.
Proof.
  revert acc. induction chains as [| chain chains IH]; intros acc; [done |].
  simpl. by rewrite fold_left_app, IH.
Qed.

Lemma collect_first_seen (chains : list (list Certificate)) :
  fst (collect chains) = first_seen [] (concat chains).
Proof.
  unfold collect. rewrite fold_chains.
  by destruct (fold_see (concat chains) [] ∅ [] marks_empty) as (m & -> & _).
Qed.

Lemma string_app_assoc (a b c : string) : (a ++ b) ++ c = a ++ (b ++ c).
Proof.
  induction a as [| x a IH]; [done |].
  by rewrite !app_cons, IH.
Qed.

Lemma string_app_empty_r (a : string) : a ++ "" = a.
Proof.
  induction a as [| x a IH]; [done |]. by rewrite app_cons, IH.
Qed.

Lemma encode_out out (s : state URL) (c : Certificate) :
  ∃ s', encode env (out, s) c = (out ++ pem_of env c, s').
Proof.
  unfold encode, pem_of.
  destruct (pem_Encode env _) as [written e]. eauto.
Qed.

(** The second loop appends the encodings in order. *)
Lemma fold_encode (certificates : list Certificate) out (s : state URL) :
  fst (fold_left (encode env) certificates (out, s))
  = out ++ concat_strings (pem_of env <$> certificates).
Proof.
  revert out s. induction certificates as [| c l IH]; intros out s.
  - simpl. by rewrite string_app_empty_r.
  - cbn [fold_left]. destruct (encode_out out s c) as [s' ->].
    rewrite IH, fmap_cons. cbn [concat_strings foldr].
    apply string_app_assoc.
Qed.

Lemma getCAChain_cached tls (s : state URL) :
  caData (this s) ≠ [] →
  fst (getCAChain env tls s) = string_of_list_byte (caData (this s)).
Proof.
  intros Hdata. unfold getCAChain.
  by destruct (caData (this s)).
Qed.

Lemma getCAChain_derived tls (s : state URL) :
  caData (this s) = [] →
  fst (getCAChain env (Some tls) s)
  = concat_strings
      (pem_of env <$> first_seen [] (concat (VerifiedChains tls))).
Proof.
  intros Hdata. unfold getCAChain. rewrite Hdata. simpl.
  pose proof (collect_first_seen (VerifiedChains tls)) as Hcollect.
  destruct (collect (VerifiedChains tls)) as [certificates seen].
  simpl in Hcollect. subst certificates.
  by rewrite fold_encode.
Qed.

End GetCAChainProperties.

(** C6.  [getCAChain] returns the cached CA bytes as they are when there
    are some.  With none and no connection state it returns the empty
    string.  With none and a connection state it returns the PEM encodings,
    one after the other, of a list of certificates taken from the verified
    chains in which no signature occurs twice, which keeps the order the
    certificates have across the chains, which holds every signature that
    occurs in the chains, and in which each signature is carried by the
    first certificate of the chains that has it. *)
Theorem getCAChain_chain
    {URL Obj Target : Type} (env : network.Env URL Obj Target)
    (s : network.state URL) :
  (∀ tls, network.caData (network.this s) ≠ [] →
          fst (network.getCAChain env tls s)
          = string_of_list_byte (network.caData (network.this s)))
  ∧ (network.caData (network.this s) = [] →
     fst (network.getCAChain env None s) = "")
  ∧ (∀ tls, network.caData (network.this s) = [] →
       ∃ certificates,
         fst (network.getCAChain env (Some tls) s)
         = concat_strings (network.pem_of env <$> certificates)
         ∧ certificates = first_seen [] (concat (network.VerifiedChains tls))
         ∧ NoDup (network.Signature <$> certificates)
         ∧ certificates `sublist_of` concat (network.VerifiedChains tls)
         ∧ (∀ c, c ∈ concat (network.VerifiedChains tls) →
                 network.Signature c ∈ network.Signature <$> certificates)
         ∧ (∀ l1 c l2,
              concat (network.VerifiedChains tls) = (l1 ++ c :: l2)%list →
              network.Signature c ∉ network.Signature <$> l1 →
              c ∈ certificates)).
Proof.
  split; [| split].
  - intros tls Hdata. by apply getCAChain_cached.
  - intros Hdata. unfold network.getCAChain. by rewrite Hdata.
  - intros tls Hdata.
    exists (first_seen [] (concat (network.VerifiedChains tls))).
    split; [by apply getCAChain_derived |]. split; [done |].
    split; [apply first_seen_NoDup |].
    split; [apply first_seen_sublist |]. split.
    + intros c Hc.
      destruct (first_seen_covers [] _ c Hc) as [?%elem_of_nil | ?]; done.
    + intros l1 c l2 -> Hfirst.
      apply first_seen_first; [by intros ?%elem_of_nil | done].
Qed.

(** Two verified chains that share their issuer: the issuer is encoded
    once, after the first leaf and before the second. *)
Lemma getCAChain_chain_witness :
  let env := net_scenario.coordinator (net_scenario.page 200 "200 OK" "text/html" "") in
  let leaf := net_scenario.cert "leaf" "s1" in
  let issuer := net_scenario.cert "issuer" "s2" in
  let other := net_scenario.cert "other" "s3" in
  ∃ certificates,
    fst (network.getCAChain env
           (Some {| network.VerifiedChains := [[leaf; issuer]; [other; issuer]] |})
           net_scenario.fresh)
    = concat_strings (network.pem_of env <$> certificates)
    ∧ certificates = [leaf; issuer; other].
Proof.
  intros env leaf issuer other.
  destruct (proj2 (proj2 (getCAChain_chain env net_scenario.fresh))
              {| network.VerifiedChains := [[leaf; issuer]; [other; issuer]] |}
              eq_refl)
    as (certificates & Hout & Hlist & _).
  exists certificates. split; [exact Hout |].
  rewrite Hlist. reflexivity.
Defined.

(** ** The JSON call envelope *)

Section DoJSONProperties.

Import network.

Context {URL Obj Target : Type}.
Variable env : Env URL Obj Target.

(** [do] fails exactly when the URL does not resolve, the request cannot
    be built, or the transport fails; the transport is brought up to date
    before the request is sent. *)
Lemma do_fails_iff uri method request requestType headers (s : state URL) :
  (∃ e, fst (do env uri method request requestType headers s) = inl e)
  ↔ (∃ e, URL_Parse env (url (this s)) uri = inl e)
    ∨ (∃ u e, URL_Parse env (url (this s)) uri = inr u
              ∧ http_NewRequest env method (URL_String env u) request = inl e)
    ∨ (∃ u req e,
         URL_Parse env (url (this s)) uri = inr u
         ∧ http_NewRequest env method (URL_String env u) request = inr req
         ∧ client_Do env (this (ensureTLSConfig env s))
             (with_headers env req request requestType headers)
           = inl e).
Proof.
  unfold do.
  destruct (URL_Parse env (url (this s)) uri) as [e | u].
  { split; intros _; [left |]; by eexists. }
  destruct (http_NewRequest env method (URL_String env u) request)
    as [e | req] eqn:Hreq.
  { split; intros _; [right; left; by eexists _, _ | by eexists]. }
  destruct (client_Do env _ _) as [e | res] eqn:Hdo.
  - split; intros _; [right; right; by eexists _, _, _ | by eexists].
  - simpl. split; [by intros [? ?] |].
    intros [[? ?] | [(u' & ? & Hu & Hnew) | (u' & req' & e & Hu & Hnew & He)]];
      simplify_eq; congruence.
Qed.

Lemma doJSON_marshal_failure uri method statusCode request response
    (s : state URL) message :
  marshal_body env request = inl message →
  doJSON env uri method statusCode request response s
  = (((-1)%Z, message, ""), response, s).
Proof. intros H. unfold doJSON. by rewrite H. Qed.

Lemma doJSON_do_failure uri method statusCode request response
    (s : state URL) body e s' :
  marshal_body env request = inr body →
  do env uri method body "application/json"
     (Some (accept_headers response)) s = (inl e, s') →
  doJSON env uri method statusCode request response s
  = (((-1)%Z, e, ""), response, s').
Proof. intros H1 H2. unfold doJSON. by rewrite H1, H2. Qed.

(** A response with another status than the expected one: the status is
    returned with the chain, and [response] is what it was. *)
Lemma doJSON_mismatch uri method statusCode request response
    (s : state URL) body res s' :
  marshal_body env request = inr body →
  do env uri method body "application/json"
     (Some (accept_headers response)) s = (inr res, s') →
  StatusCode res ≠ statusCode →
  doJSON env uri method statusCode request response s
  = ((StatusCode res, Status res, fst (getCAChain env (TLS res) s')),
     response, snd (getCAChain env (TLS res) s')).
Proof.
  intros H1 H2 Hne. unfold doJSON. rewrite H1, H2.
  apply Z.eqb_neq in Hne. rewrite Hne.
  by destruct (getCAChain env (TLS res) s').
Qed.

(** The expected status and no [response] to fill. *)
Lemma doJSON_no_target uri method statusCode request
    (s : state URL) body res s' :
  marshal_body env request = inr body →
  do env uri method body "application/json"
     (Some (@accept_headers Target None)) s = (inr res, s') →
  doJSON env uri method statusCode request None s
  = ((StatusCode res, Status res, fst (getCAChain env (TLS res) s')),
     None, snd (getCAChain env (TLS res) s')).
Proof.
  intros H1 H2. unfold doJSON. rewrite H1, H2.
  destruct (StatusCode res =? statusCode)%Z;
    by destruct (getCAChain env (TLS res) s').
Qed.

(** The expected status and a [response] to fill: the content type is
    checked, then the body is decoded. *)
Lemma doJSON_match uri method statusCode request target
    (s : state URL) body res s' :
  marshal_body env request = inr body →
  do env uri method body "application/json"
     (Some (accept_headers (Some target))) s = (inr res, s') →
  StatusCode res = statusCode →
  let contentType := Header_Get (resp_Header res) "Content-Type" in
  let decoded := json_Decode env (resp_Body res) target in
  doJSON env uri method statusCode request (Some target) s
  = if negb (String.eqb contentType "application/json")
    then (((-1)%Z,
           "Server should return application/json. Got: " ++ contentType, ""),
          Some target, s')
    else match snd decoded with
         | Some e =>
             (((-1)%Z, "Error decoding json payload " ++ e, ""),
              Some (fst decoded), s')
         | None =>
             ((StatusCode res, Status res,
               fst (getCAChain env (TLS res) s')),
              Some (fst decoded), snd (getCAChain env (TLS res) s'))
         end.
Proof.
  intros H1 H2 Heq contentType decoded. subst contentType decoded.
  unfold doJSON. rewrite H1, H2.
  apply Z.eqb_eq in Heq. rewrite Heq.
  destruct (negb _); [done |].
  destruct (json_Decode env (resp_Body res) target) as [target' [e |]];
    [done |].
  simpl. by destruct (getCAChain env (TLS res) s').
Qed.

End DoJSONProperties.

(** C2, as the code has it.  [doJSON] returns -1 when the request does not
    marshal and when [do] fails, which is when the URL does not resolve, the
    request cannot be built or the transport fails.  For a response that was
    received it returns -1 if the response is refused (expected status, a
    [response] to fill, and a content type other than the JSON one or a body
    that does not decode), and the received status code in every other
    case, so for every response whose status is not the expected one; a
    received status code not being negative, the code is then negative
    exactly when the response is refused. *)
Theorem doJSON_status_code
    {URL Obj Target : Type} (env : network.Env URL Obj Target)
    (uri method : string) (statusCode : Z)
    (request : option Obj) (response : option Target) (s : network.state URL) :
  let code := (network.doJSON env uri method statusCode request response s).1.1.1.1 in
  (∀ message, network.marshal_body env request = inl message → code = (-1)%Z)
  ∧ (∀ body e s',
       network.marshal_body env request = inr body →
       network.do env uri method body "application/json"
         (Some (network.accept_headers response)) s = (inl e, s') →
       code = (-1)%Z)
  ∧ (∀ body,
       (∃ e, fst (network.do env uri method body "application/json"
                    (Some (network.accept_headers response)) s) = inl e)
       ↔ (∃ e, network.URL_Parse env (network.url (network.this s)) uri = inl e)
         ∨ (∃ u e,
              network.URL_Parse env (network.url (network.this s)) uri = inr u
              ∧ network.http_NewRequest env method (network.URL_String env u) body
                = inl e)
         ∨ (∃ u req e,
              network.URL_Parse env (network.url (network.this s)) uri = inr u
              ∧ network.http_NewRequest env method (network.URL_String env u) body
                = inr req
              ∧ network.client_Do env
                  (network.this (network.ensureTLSConfig env s))
                  (network.with_headers env req body "application/json"
                     (Some (network.accept_headers response)))
                = inl e))
  ∧ (∀ body res s',
       network.marshal_body env request = inr body →
       network.do env uri method body "application/json"
         (Some (network.accept_headers response)) s = (inr res, s') →
       (refused env statusCode response res → code = (-1)%Z)
       ∧ (¬ refused env statusCode response res → code = network.StatusCode res)
       ∧ (network.StatusCode res ≠ statusCode → code = network.StatusCode res)
       ∧ ((0 ≤ network.StatusCode res)%Z →
          ((code < 0)%Z ↔ refused env statusCode response res))).
Proof.
  intros code. subst code.
  split; [| split; [| split]].
  - intros message H. by rewrite (doJSON_marshal_failure env _ _ _ _ _ _ _ H).
  - intros body e s' H1 H2.
    by rewrite (doJSON_do_failure env _ _ _ _ _ _ _ _ _ H1 H2).
  - intros body. apply do_fails_iff.
  - intros body res s' H1 H2.
    assert (network.StatusCode res ≠ statusCode →
            (network.doJSON env uri method statusCode request response s).1.1.1.1
            = network.StatusCode res) as Hmismatch.
    { intros Hne. by rewrite (doJSON_mismatch env _ _ _ _ _ _ _ _ _ H1 H2 Hne). }
    assert (refused env statusCode response res →
            (network.doJSON env uri method statusCode request response s).1.1.1.1
            = (-1)%Z) as Hrefused.
    { intros (Hstatus & target & -> & Hwhy).
      rewrite (doJSON_match env _ _ _ _ _ _ _ _ _ H1 H2 Hstatus).
      destruct (String.eqb_spec
                  (network.Header_Get (network.resp_Header res) "Content-Type")
                  "application/json") as [Hct | Hct]; simpl; [| done].
      destruct Hwhy as [Hwhy | [e He]]; [done |]. by rewrite He. }
    assert (¬ refused env statusCode response res →
            (network.doJSON env uri method statusCode request response s).1.1.1.1
            = network.StatusCode res) as Haccepted.
    { intros Hnot.
      destruct (decide (network.StatusCode res = statusCode)) as [Hstatus | Hne];
        [| by apply Hmismatch].
      destruct response as [target |].
      - rewrite (doJSON_match env _ _ _ _ _ _ _ _ _ H1 H2 Hstatus).
        destruct (String.eqb_spec
                    (network.Header_Get (network.resp_Header res) "Content-Type")
                    "application/json") as [Hct | Hct]; simpl.
        + destruct (network.json_Decode env (network.resp_Body res) target).2
            as [e |] eqn:He; [| done].
          destruct Hnot. split; [done |]. exists target. split; [done |].
          right. rewrite He. by eexists.
        + destruct Hnot. split; [done |]. exists target. split; [done |].
          by left.
      - by rewrite (doJSON_no_target env _ _ _ _ _ _ _ _ H1 H2). }
    split; [exact Hrefused |]. split; [exact Haccepted |].
    split; [exact Hmismatch |].
    intros Hpos. split.
    + intros Hneg.
      destruct (decide (network.StatusCode res = statusCode)) as [Hstatus | Hne].
      * destruct response as [target |].
        -- split; [done |]. exists target. split; [done |].
           rewrite (doJSON_match env _ _ _ _ _ _ _ _ _ H1 H2 Hstatus) in Hneg.
           destruct (String.eqb_spec
                       (network.Header_Get (network.resp_Header res) "Content-Type")
                       "application/json") as [Hct | Hct]; simpl in Hneg;
             [| by left].
           right.
           destruct (network.json_Decode env (network.resp_Body res) target).2
             as [e |]; [by eexists |]. simpl in Hneg. lia.
        -- rewrite (doJSON_no_target env _ _ _ _ _ _ _ _ H1 H2) in Hneg.
           simpl in Hneg. lia.
      * rewrite (Hmismatch Hne) in Hneg. lia.
    + intros Href. rewrite (Hrefused Href). lia.
Qed.

(** A 404 where 200 is expected comes back as 404; a 200 with an HTML
    body where JSON is expected is refused. *)
Lemma doJSON_status_code_witness :
  (network.doJSON
     (net_scenario.coordinator
        (net_scenario.page 404 "404 Not Found" "text/html" "<html>"))
     "builds/register.json" "POST" 200 (Some "{}") (Some "")
     net_scenario.fresh).1.1.1.1
  = 404%Z.
Proof.
  pose proof (doJSON_status_code
    (net_scenario.coordinator
       (net_scenario.page 404 "404 Not Found" "text/html" "<html>"))
    "builds/register.json" "POST" 200 (Some "{}") (Some "")
    net_scenario.fresh) as H.
  cbv zeta in H. destruct H as (_ & _ & _ & H).
  destruct (H _ _ _ eq_refl eq_refl) as (_ & _ & Hmismatch & _).
  rewrite Hmismatch; [reflexivity | discriminate].
Defined.

(** C2, as the claim has it, fails: the request marshals, the URL
    resolves, the transport delivers a response with status 200, the
    expected one, and [doJSON] returns -1, not 200, because the content
    type is not the JSON one. *)
Lemma doJSON_negative_for_received_response :
  let env :=
    net_scenario.coordinator
      (net_scenario.page 200 "200 OK" "text/html" "<html>") in
  network.marshal_body env (Some "{}") = inr (Some (list_byte_of_string "{}"))
  ∧ (∃ res,
       fst (network.do env "builds/register.json" "POST"
              (Some (list_byte_of_string "{}")) "application/json"
              (Some (network.accept_headers (Some ""))) net_scenario.fresh)
       = inr res
       ∧ network.StatusCode res = 200%Z)
  ∧ (network.doJSON env "builds/register.json" "POST" 200 (Some "{}") (Some "")
       net_scenario.fresh).1.1.1.1
    = (-1)%Z.
Proof.
  split; [reflexivity |]. split; [| reflexivity].
  eexists. split; reflexivity.
Qed.

(** C10.  When the response that was received has another status than the
    expected one, [doJSON] returns the received status code, the status
    text and the chain [getCAChain] gives for the connection, and what
    [response] points to is what it was before the call, whatever the
    content type of the response and whatever decoding its body would have
    done. *)
Theorem doJSON_status_mismatch_frame
    {URL Obj Target : Type} (env : network.Env URL Obj Target)
    (uri method : string) (statusCode : Z)
    (request : option Obj) (response : option Target) (s : network.state URL)
    (body : option (list byte)) (res : network.Response)
    (s' : network.state URL) :
  network.marshal_body env request = inr body →
  network.do env uri method body "application/json"
    (Some (network.accept_headers response)) s = (inr res, s') →
  network.StatusCode res ≠ statusCode →
  let result := network.doJSON env uri method statusCode request response s in
  result.1.2 = response
  ∧ result.1.1
    = (network.StatusCode res, network.Status res,
       fst (network.getCAChain env (network.TLS res) s'))
  ∧ result.2 = snd (network.getCAChain env (network.TLS res) s').
Proof.
  intros H1 H2 Hne result. subst result.
  by rewrite (doJSON_mismatch env _ _ _ _ _ _ _ _ _ H1 H2 Hne).
Qed.

(** A 403 with a JSON body where 201 is expected: the target keeps its
    content although the decoder would have replaced it. *)
Lemma doJSON_status_mismatch_frame_witness :
  let env :=
    net_scenario.coordinator
      (net_scenario.page 403 "403 Forbidden" "application/json" "{}") in
  let result :=
    network.doJSON env "runners/register.json" "POST" 201
      (Some "{}") (Some "before") net_scenario.fresh in
  result.1.2 = Some "before"
  ∧ result.1.1 = (403%Z, "403 Forbidden", "")
  ∧ snd (network.json_Decode env (list_byte_of_string "{}") "before") = None
  ∧ fst (network.json_Decode env (list_byte_of_string "{}") "before") = "{}".
Proof.
  intros env result.
  pose proof (doJSON_status_mismatch_frame env
    "runners/register.json" "POST" 201 (Some "{}") (Some "before")
    net_scenario.fresh _ _ _ eq_refl eq_refl) as H.
  cbv zeta in H. destruct H as (Htarget & Htriple & _); [discriminate |].
  split; [exact Htarget |]. split; [exact Htriple |].
  split; reflexivity.
Defined.

(** * Further properties *)

(** ** The environment projection *)

Section BuildVariablesProperties.

Import kubernetes.

(** The loop from index [k] on: the entries before [k] and after the part
    of [bv] are kept, those in between are the projections of [bv]. *)
Lemma buildVariables_loop (bv : list BuildVariable) (k : nat) (e : list EnvVar) :
  (k + length bv ≤ length e)%nat →
  fold_left
    (λ e ib, <[fst ib := {| env_Name := Key (snd ib);
                            env_Value := Value (snd ib) |}]> e)
    (imap (λ i b, (k + i, b)) bv) e
  = (take k e ++ (toEnvVar <$> bv) ++ drop (k + length bv) e)%list.
Proof.
  revert k e. induction bv as [| b bv IH]; intros k e Hlen.
  - simpl. rewrite Nat.add_0_r. by rewrite take_drop.
  - rewrite imap_cons. cbn [fold_left fst snd]. rewrite Nat.add_0_r.
    rewrite (imap_ext _ (λ i b, (S k + i, b)) bv)
      by (intros; simpl; f_equal; lia).
    simpl in Hlen.
    rewrite IH by (rewrite length_insert; lia).
    assert (k < length e)%nat as Hk by lia.
    destruct (lookup_lt_is_Some_2 e k Hk) as [x Hx].
    rewrite (take_S_r (<[k:=toEnvVar b]> e) k (toEnvVar b))
      by (by apply list_lookup_insert_eq).
    rewrite take_insert_ge by lia.
    rewrite drop_insert_lt by lia.
    rewrite fmap_cons, <- app_assoc. simpl.
    by replace (k + S (length bv)) with (S (k + length bv)) by lia.
Qed.

End BuildVariablesProperties.

(** The loop fills every entry: the result is the list of projections. *)
Lemma buildVariables_fmap (bv : list kubernetes.BuildVariable) :
  kubernetes.buildVariables bv = toEnvVar <$> bv.
Proof.
  unfold kubernetes.buildVariables.
  rewrite (imap_ext pair (λ i b, (0 + i, b)) bv) by done.
  rewrite buildVariables_loop by (rewrite length_replicate; simpl; lia).
  rewrite take_0. simpl.
  rewrite drop_ge by (rewrite length_replicate; lia).
  apply app_nil_r.
Qed.

(** X1.  [buildVariables] projects the variables one to one and in order:
    the result is as long as the input, its [i]-th entry has the key of the
    [i]-th variable as name and its value as value, and nothing is merged,
    so two variables with one key give two entries. *)
Theorem buildVariables_projects (bv : list kubernetes.BuildVariable) :
  length (kubernetes.buildVariables bv) = length bv
  ∧ (∀ i, kubernetes.buildVariables bv !! i = toEnvVar <$> bv !! i)
  ∧ (∀ i j b1 b2,
       i ≠ j → bv !! i = Some b1 → bv !! j = Some b2 →
       kubernetes.Key b1 = kubernetes.Key b2 →
       kubernetes.buildVariables bv !! i = Some (toEnvVar b1)
       ∧ kubernetes.buildVariables bv !! j = Some (toEnvVar b2)).
Proof.
  rewrite buildVariables_fmap.
  split; [apply length_fmap |]. split.
  - intros i. apply list_lookup_fmap.
  - intros i j b1 b2 _ H1 H2 _. rewrite !list_lookup_fmap, H1, H2. done.
Qed.

(** Two variables with the same key are both kept, the first first. *)
Lemma buildVariables_projects_witness :
  let first := {| kubernetes.Key := "CI"; kubernetes.Value := "true" |} in
  let second := {| kubernetes.Key := "CI"; kubernetes.Value := "false" |} in
  kubernetes.buildVariables [first; second] !! 0%nat = Some (toEnvVar first)
  ∧ kubernetes.buildVariables [first; second] !! 1%nat = Some (toEnvVar second).
Proof.
  intros first second.
  apply (proj2 (proj2 (buildVariables_projects [first; second]))
           0%nat 1%nat first second); [discriminate | done..].
Defined.

(** X2.  Projecting two lists one after the other is projecting their
    concatenation: [buildVariables] has no state that runs across
    variables. *)
Theorem buildVariables_app (bv1 bv2 : list kubernetes.BuildVariable) :
  kubernetes.buildVariables (bv1 ++ bv2)%list
  = (kubernetes.buildVariables bv1 ++ kubernetes.buildVariables bv2)%list.
Proof.
  rewrite !buildVariables_fmap. apply fmap_app.
Qed.

(** ** The cluster client *)

Section GetKubeClientProperties.

Import kubernetes.

Context {KubeClient : Type}.
Variable InClusterConfig : option restConfig * option error.
Variable client_New : option restConfig → option KubeClient * option error.

Lemma getKubeClient_config_error config e :
  snd (getKubeClientConfig InClusterConfig config) = Some e →
  getKubeClient KubeClient InClusterConfig client_New config = (None, Some e).
Proof.
  unfold getKubeClient.
  destruct (getKubeClientConfig InClusterConfig config) as [rc err].
  simpl. by intros ->.
Qed.

Lemma getKubeClient_config_ok config :
  snd (getKubeClientConfig InClusterConfig config) = None →
  getKubeClient KubeClient InClusterConfig client_New config
  = client_New (fst (getKubeClientConfig InClusterConfig config)).
Proof.
  unfold getKubeClient.
  destruct (getKubeClientConfig InClusterConfig config) as [rc err].
  simpl. by intros ->.
Qed.

End GetKubeClientProperties.

(** X3.  [getKubeClient] builds no client from an incomplete certificate
    configuration: with a certificate file and no key file or no CA file it
    returns no client and the file-based-auth error, whatever [client.New]
    would return; and when in-cluster discovery is the strategy and fails,
    its error is returned with no client.  With a complete explicit
    configuration it returns what [client.New] returns for it. *)
Theorem getKubeClient_propagates
    {KubeClient : Type}
    (InClusterConfig : option kubernetes.restConfig * option error)
    (client_New : option kubernetes.restConfig → option KubeClient * option error)
    (config : kubernetes.KubernetesConfig) :
  let result :=
    kubernetes.getKubeClient KubeClient InClusterConfig client_New config in
  (kubernetes.CertFile config ≠ "" →
   kubernetes.KeyFile config = "" ∨ kubernetes.CAFile config = "" →
   result = (None, Some kubernetes.errFileBasedAuth))
  ∧ (∀ e, kubernetes.CertFile config = "" → kubernetes.Host config = "" →
          snd InClusterConfig = Some e →
          result = (None, Some e))
  ∧ (kubernetes.CertFile config = "" → kubernetes.Host config ≠ "" →
     result
     = client_New
         (Some {| kubernetes.rc_Host := kubernetes.Host config;
                  kubernetes.rc_TLSClientConfig :=
                    kubernetes.zeroTLSClientConfig |}))
  ∧ (kubernetes.CertFile config ≠ "" → kubernetes.KeyFile config ≠ "" →
     kubernetes.CAFile config ≠ "" →
     result
     = client_New
         (Some {| kubernetes.rc_Host := kubernetes.Host config;
                  kubernetes.rc_TLSClientConfig :=
                    {| kubernetes.tls_CertFile := kubernetes.CertFile config;
                       kubernetes.tls_KeyFile := kubernetes.KeyFile config;
                       kubernetes.tls_CAFile := kubernetes.CAFile config |} |})).
Proof.
  intros result. subst result. split; [| split; [| split]].
  - intros Hcert Hmissing. apply getKubeClient_config_error.
    by rewrite (getKubeClientConfig_incomplete _ _ Hcert Hmissing).
  - intros e Hcert Hhost He. apply getKubeClient_config_error.
    by rewrite (getKubeClientConfig_in_cluster _ _ Hcert Hhost).
  - intros Hcert Hhost.
    rewrite getKubeClient_config_ok;
      by rewrite (getKubeClientConfig_host _ _ Hcert Hhost).
  - intros Hcert Hkey Hca.
    rewrite getKubeClient_config_ok;
      by rewrite (getKubeClientConfig_files _ _ Hcert Hkey Hca).
Qed.

(** A client factory that would succeed is not asked when the key file is
    missing. *)
Lemma getKubeClient_propagates_witness :
  kubernetes.getKubeClient nat (None, Some "not in a cluster")
    (λ _, (Some 1, None))
    {| kubernetes.Host := "https://k8s"; kubernetes.CertFile := "client.crt";
       kubernetes.KeyFile := ""; kubernetes.CAFile := "ca.crt" |}
  = (None, Some kubernetes.errFileBasedAuth)
  ∧ kubernetes.getKubeClient nat (None, Some "not in a cluster")
      (λ _, (Some 1, None))
      {| kubernetes.Host := ""; kubernetes.CertFile := "";
         kubernetes.KeyFile := ""; kubernetes.CAFile := "" |}
    = (None, Some "not in a cluster").
Proof.
  split.
  - pose proof (getKubeClient_propagates (None, Some "not in a cluster")
      (λ _, (Some 1, None))
      {| kubernetes.Host := "https://k8s"; kubernetes.CertFile := "client.crt";
         kubernetes.KeyFile := ""; kubernetes.CAFile := "ca.crt" |}) as H.
    cbv zeta in H. destruct H as (H & _).
    apply H; simpl; [discriminate | by left].
  - pose proof (getKubeClient_propagates (None, Some "not in a cluster")
      (λ _, (Some 1, None))
      {| kubernetes.Host := ""; kubernetes.CertFile := "";
         kubernetes.KeyFile := ""; kubernetes.CAFile := "" |}) as H.
    cbv zeta in H. destruct H as (_ & H & _).
    apply H; reflexivity.
Defined.

(** ** More on the pod lifecycle waiter *)

Section WaitForPodRunningMore.

Import kubernetes.

(** What a fetch can send: a final answer of one of four kinds and no
    events, or a request to go on after one line and one second. *)
Lemma fetch_cases (got : error + Pod) :
  (∃ ph e, fetch got = ([], {| done := true; phase := ph; err := e |})
           ∧ ((ph = PodRunning ∧ e = None)
              ∨ (ph = PodSucceeded ∧ e = Some errAlreadySucceeded)
              ∨ (ph = PodFailed ∧ e = Some errStatusFailed)
              ∨ (ph = PodUnknown ∧ ∃ e', got = inl e' ∧ e = Some e')))
  ∨ (∃ line ph,
       fetch got = ([EvWrite line; EvSleep (1 * Second)],
                    {| done := false; phase := ph; err := None |})).
Proof.
  destruct got as [e | pod]; simpl.
  - left. eexists _, _. split; [done |]. do 3 right. eauto.
  - destruct (String.eqb_spec (Phase (Status pod)) PodRunning) as [-> | _].
    { left. eexists _, _. split; [done |]. by left. }
    destruct (String.eqb_spec (Phase (Status pod)) PodSucceeded) as [-> | _].
    { left. eexists _, _. split; [done |]. right. by left. }
    destruct (String.eqb_spec (Phase (Status pod)) PodFailed) as [-> | _].
    { left. eexists _, _. split; [done |]. do 2 right. by left. }
    right. by eexists _, _.
Qed.

Lemma waitForPodRunning_result_kinds ctx pod (rounds : list Round) ph e :
  fst (waitForPodRunning ctx pod rounds) = Some (ph, e) →
  (ph = PodRunning ∧ e = None)
  ∨ (ph = PodSucceeded ∧ e = Some errAlreadySucceeded)
  ∨ (ph = PodFailed ∧ e = Some errStatusFailed)
  ∨ (ph = PodUnknown ∧ ∃ e', e = Some e').
Proof.
  revert ctx. induction rounds as [| r rounds IH]; intros ctx; [done |].
  simpl. destruct (select ctx r) as [| e0].
  - destruct (fetch_cases (get_result r))
      as [(ph' & e' & -> & Hkind) | (line & ph' & ->)]; simpl.
    + intros [= <- <-].
      destruct Hkind as [? | [? | [? | (-> & e'' & _ & ->)]]]; eauto 6.
    + specialize (IH (ctx_after ctx r)).
      destruct (waitForPodRunning (ctx_after ctx r) pod rounds). exact IH.
  - simpl. intros [= <- <-]. do 3 right. eauto.
Qed.




End WaitForPodRunningMore.

(** X4.  Whatever the context and the fetches do, what the waiter returns
    is of one of four kinds: Running with no error, Succeeded with the
    early-completion error, Failed with the failure error, or Unknown with
    an error.  So a nil error means the pod is Running, and no other phase
    (Pending, say) is ever returned. *)
Theorem waitForPodRunning_nil_error_is_running
    (ctx : kubernetes.Context) (pod : kubernetes.Pod)
    (rounds : list kubernetes.Round)
    (ph : kubernetes.PodPhase) (e : option error) :
  fst (kubernetes.waitForPodRunning ctx pod rounds) = Some (ph, e) →
  ((ph = kubernetes.PodRunning ∧ e = None)
   ∨ (ph = kubernetes.PodSucceeded ∧ e = Some kubernetes.errAlreadySucceeded)
   ∨ (ph = kubernetes.PodFailed ∧ e = Some kubernetes.errStatusFailed)
   ∨ (ph = kubernetes.PodUnknown ∧ ∃ e', e = Some e'))
  ∧ (e = None ↔ ph = kubernetes.PodRunning).
Proof.
  intros Hrun.
  pose proof (waitForPodRunning_result_kinds ctx pod rounds ph e Hrun) as Hkind.
  split; [exact Hkind |].
  destruct Hkind as [[-> ->] | [[-> ->] | [[-> ->] | (-> & e' & ->)]]];
    split; done.
Qed.

Lemma waitForPodRunning_nil_error_is_running_witness :
  (kubernetes.PodFailed = kubernetes.PodRunning ∧ Some kubernetes.errStatusFailed = None)
  ∨ (kubernetes.PodFailed = kubernetes.PodSucceeded
     ∧ Some kubernetes.errStatusFailed = Some kubernetes.errAlreadySucceeded)
  ∨ (kubernetes.PodFailed = kubernetes.PodFailed
     ∧ Some kubernetes.errStatusFailed = Some kubernetes.errStatusFailed)
  ∨ (kubernetes.PodFailed = kubernetes.PodUnknown
     ∧ ∃ e', Some kubernetes.errStatusFailed = Some e').
Proof.
  apply (waitForPodRunning_nil_error_is_running None kube_scenario.build
           [kube_scenario.fetched kubernetes.PodPending;
            kube_scenario.fetched kubernetes.PodFailed]).
  reflexivity.
Defined.



(** X6.  The loop has no bound of its own: as long as nobody cancels and
    every fetch reports a phase that is none of Running, Succeeded and
    Failed, the waiter has not returned, however many rounds have passed,
    and it has launched one fetch per round. *)
Theorem waitForPodRunning_keeps_waiting
    (pod : kubernetes.Pod) (rounds : list kubernetes.Round) :
  Forall waiting_round rounds →
  fst (kubernetes.waitForPodRunning None pod rounds) = None
  ∧ kubernetes.launches (snd (kubernetes.waitForPodRunning None pod rounds))
    = length rounds.
Proof.
  intros Hwait.
  destruct (waitForPodRunning_waiting_prefix pod rounds [] Hwait)
    as (events & Hl & _ & Hrun).
  rewrite app_nil_r in Hrun. rewrite Hrun. simpl.
  by rewrite app_nil_r.
Qed.

Lemma waitForPodRunning_keeps_waiting_witness :
  fst (kubernetes.waitForPodRunning None kube_scenario.build
         (replicate 5 (kube_scenario.fetched kubernetes.PodPending)))
  = None.
Proof.
  apply (waitForPodRunning_keeps_waiting kube_scenario.build
           (replicate 5 (kube_scenario.fetched kubernetes.PodPending))).
  apply Forall_replicate.
  split; [reflexivity |]. eexists. split; [reflexivity |]. done.
Defined.

(** X7.  Cancellation while waiting: after any number of waiting rounds,
    if the context is cancelled during a round and the [select] takes the
    cancellation case, the waiter returns Unknown with the context's error
    in that round, whatever that round's fetch would have reported.  The
    round's fetch was launched and is abandoned: besides the lines of the
    waiting rounds there is at most the one line that fetch had written by
    then. *)
Theorem waitForPodRunning_cancelled_while_waiting
    (pod : kubernetes.Pod) (pre : list kubernetes.Round)
    (r : kubernetes.Round) (rounds : list kubernetes.Round) (e : error) :
  Forall waiting_round pre →
  kubernetes.cancel_during r = Some e →
  kubernetes.fetch_first r = false →
  let run := kubernetes.waitForPodRunning None pod (pre ++ r :: rounds)%list in
  fst run = Some (kubernetes.PodUnknown, Some e)
  ∧ kubernetes.launches (snd run) = S (length pre)
  ∧ (length pre ≤ length (kubernetes.written (snd run)) ≤ S (length pre))%nat
  ∧ (kubernetes.abandoned_after r = 0%nat →
     length (kubernetes.written (snd run)) = length pre).
Proof.
  intros Hpre Hcancel Hdone run. subst run.
  destruct (waitForPodRunning_waiting_prefix pod pre (r :: rounds) Hpre)
    as (events & Hl & Hw & ->).
  assert (kubernetes.waitForPodRunning None pod (r :: rounds)
          = (Some (kubernetes.PodUnknown, Some e),
             kubernetes.EvLaunchFetch (kubernetes.Namespace pod)
               (kubernetes.Name pod)
             :: take (kubernetes.abandoned_after r)
                  (fst (kubernetes.fetch (kubernetes.get_result r))))) as ->.
  { cbn [kubernetes.waitForPodRunning]. unfold kubernetes.select. simpl.
    by rewrite Hcancel, Hdone. }
  cbn [fst snd]. rewrite launches_app, written_app, length_app.
  change (kubernetes.launches (kubernetes.EvLaunchFetch ?a ?b :: ?l))
    with (S (kubernetes.launches l)).
  change (kubernetes.written (kubernetes.EvLaunchFetch ?a ?b :: ?l))
    with (kubernetes.written l).
  destruct (fetch_events (kubernetes.get_result r) (kubernetes.abandoned_after r))
    as (-> & Hline).
  split; [done |]. split; [lia |]. split; [lia |].
  intros ->. rewrite take_0. simpl. lia.
Qed.

Lemma waitForPodRunning_cancelled_while_waiting_witness :
  fst (kubernetes.waitForPodRunning None kube_scenario.build
         [kube_scenario.fetched kubernetes.PodPending;
          {| kubernetes.get_result :=
               kubernetes.get_result (kube_scenario.fetched kubernetes.PodPending);
             kubernetes.cancel_during := Some "context deadline exceeded";
             kubernetes.fetch_first := false;
             kubernetes.abandoned_after := 1 |}])
  = Some (kubernetes.PodUnknown, Some "context deadline exceeded").
Proof.
  assert (waiting_round (kube_scenario.fetched kubernetes.PodPending)) as Hw.
  { split; [reflexivity |]. eexists. split; [reflexivity |]. done. }
  apply (waitForPodRunning_cancelled_while_waiting kube_scenario.build
           [kube_scenario.fetched kubernetes.PodPending]
           {| kubernetes.get_result :=
                kubernetes.get_result (kube_scenario.fetched kubernetes.PodPending);
              kubernetes.cancel_during := Some "context deadline exceeded";
              kubernetes.fetch_first := false;
              kubernetes.abandoned_after := 1 |}
           [] "context deadline exceeded"
           (@List.Forall_cons _ _ _ _ Hw (@List.Forall_nil _ _))
           eq_refl eq_refl).
Defined.

(** A run cancelled while the abandoned fetch sleeps: one fetch, one line,
    and the waiter has returned. *)
Example waitForPodRunning_cancelled_during_sleep :
  kubernetes.waitForPodRunning None kube_scenario.build
    [ {| kubernetes.get_result :=
           kubernetes.get_result (kube_scenario.fetched kubernetes.PodPending);
         kubernetes.cancel_during := Some "context canceled";
         kubernetes.fetch_first := false;
         kubernetes.abandoned_after := 2 |} ]
  = (Some (kubernetes.PodUnknown, Some "context canceled"),
     [kubernetes.EvLaunchFetch "ci" "runner-build";
      kubernetes.EvWrite
        ("Waiting for pod ci/runner-build to be running, status is Pending"
         ++ kubernetes.LF);
      kubernetes.EvSleep (1 * kubernetes.Second)]).
Proof. reflexivity. Qed.

(** ** More on the resource spec builder *)

Section LimitsMore.

Import kubernetes.

Variable ParseQuantity : string → error + resource.Quantity.

(** What the closure returns tells what its argument was. *)
Lemma parse_inv s r e :
  parse ParseQuantity s = (r, e) →
  (∀ q, r = Some q → s ≠ "" ∧ ParseQuantity s = inr q ∧ e = None)
  ∧ (r = None → e = None → s = "").
Proof.
  unfold parse. destruct s as [| c s]; simpl.
  - intros [= <- <-]. done.
  - destruct (ParseQuantity (String c s)) as [e' | q'];
      intros [= <- <-]; split; try done.
    by intros q [= ->].
Qed.

Lemma limits_with_entries cpu memory :
  let l := fst (limits_with ParseQuantity cpu memory) in
  (∀ q, l !! ResourceLimitsCPU = Some q →
        cpu ≠ "" ∧ ParseQuantity cpu = inr q)
  ∧ (∀ q, l !! ResourceLimitsMemory = Some q →
          memory ≠ "" ∧ ParseQuantity memory = inr q)
  ∧ (∀ k, k ≠ ResourceLimitsCPU → k ≠ ResourceLimitsMemory → l !! k = None).
Proof.
  unfold limits_with.
  destruct (parse ParseQuantity cpu) as [rCPU ec] eqn:Ec.
  destruct ec as [e |]; [by simpl |].
  destruct (parse ParseQuantity memory) as [rMem em] eqn:Em.
  destruct em as [e |]; [by simpl |].
  apply parse_inv in Ec as [Hc _]. apply parse_inv in Em as [Hm _].
  assert (ResourceLimitsCPU ≠ ResourceLimitsMemory) as Hne by done.
  simpl. split; [| split].
  - intros q Hq. destruct rCPU as [qc |], rMem as [qm |];
      simplify_map_eq; by destruct (Hc _ eq_refl) as (? & ? & _).
  - intros q Hq. destruct rCPU as [qc |], rMem as [qm |];
      simplify_map_eq; by destruct (Hm _ eq_refl) as (? & ? & _).
  - intros k Hk1 Hk2. destruct rCPU, rMem; by simplify_map_eq.
Qed.

End LimitsMore.

(** X8.  Whatever the arguments, well-formed or not, [limits] never makes
    up an entry: a quantity under the CPU key is what the parser returned
    for the CPU string, which was not empty; likewise under the memory key;
    and there is no other key. *)
Theorem limits_entries_sound
    (ParseQuantity : string → error + resource.Quantity) (cpu memory : string) :
  let l := fst (kubernetes.limits_with ParseQuantity cpu memory) in
  (∀ q, l !! kubernetes.ResourceLimitsCPU = Some q →
        cpu ≠ "" ∧ ParseQuantity cpu = inr q)
  ∧ (∀ q, l !! kubernetes.ResourceLimitsMemory = Some q →
          memory ≠ "" ∧ ParseQuantity memory = inr q)
  ∧ (∀ k, k ≠ kubernetes.ResourceLimitsCPU →
          k ≠ kubernetes.ResourceLimitsMemory → l !! k = None)
  ∧ dom l ⊆ {[kubernetes.ResourceLimitsCPU; kubernetes.ResourceLimitsMemory]}.
Proof.
  intros l.
  destruct (limits_with_entries ParseQuantity cpu memory) as (Hc & Hm & Hk).
  fold l in Hc, Hm, Hk.
  split; [exact Hc |]. split; [exact Hm |]. split; [exact Hk |].
  intros k Hin. apply elem_of_dom in Hin as [q Hq].
  destruct (decide (k = kubernetes.ResourceLimitsCPU)) as [-> | H1];
    [set_solver |].
  destruct (decide (k = kubernetes.ResourceLimitsMemory)) as [-> | H2];
    [set_solver |].
  rewrite (Hk k H1 H2) in Hq. done.
Qed.

Lemma limits_entries_sound_witness :
  "500m" ≠ ""
  ∧ resource.ParseQuantity "500m"
    = inr {| resource.Amount := {| resource.Unscaled := 500; resource.Scale := 3 |};
             resource.QFormat := resource.DecimalSI |}.
Proof.
  apply (limits_entries_sound resource.ParseQuantity "500m" "").
  reflexivity.
Defined.

(** ** Building the transport *)

Section CreateTransportProperties.

Import network.

Context {URL Obj Target : Type}.
Variable env : Env URL Obj Target.

(** The transport [createTransport] installs when it took [config] as TLS
    configuration. *)
Lemma createTransport_frame (s : state URL) :
  url (this (createTransport env s)) = url (this s)
  ∧ caFile (this (createTransport env s)) = caFile (this s)
  ∧ skipVerify (this (createTransport env s)) = skipVerify (this s)
  ∧ updateTime (this (createTransport env s)) = updateTime (this s).
Proof.
  unfold createTransport.
  destruct (negb (String.eqb (caFile (this s)) "") && negb (skipVerify (this s))).
  - destruct (ioutil_ReadFile env (caFile (this s))) as [e | data].
    + by destruct (negb (os_IsNotExist env e)).
    + by destruct (AppendCertsFromPEM env data).
  - done.
Qed.

(** Without a CA file, or with verification skipped, nothing is read. *)
Lemma createTransport_no_load (s : state URL) :
  caFile (this s) = "" ∨ skipVerify (this s) = true →
  createTransport env s
  = {| this := set_Transport (this s)
                 (Some {| addr := allocs s;
                          TLSHandshakeTimeout := 10 * Second;
                          TLSClientConfig :=
                            {| MinVersion := VersionTLS10;
                               InsecureSkipVerify := skipVerify (this s);
                               RootCAs := None |} |});
       allocs := S (allocs s);
       logs := logs s |}.
Proof.
  intros Hoff. unfold createTransport.
  assert (negb (String.eqb (caFile (this s)) "") && negb (skipVerify (this s))
          = false) as ->; [| done].
  destruct Hoff as [-> | ->]; [done | apply andb_false_r].
Qed.

(** With a CA file and verification on, the file decides. *)
Lemma createTransport_load (s : state URL) :
  caFile (this s) ≠ "" → skipVerify (this s) = false →
  let file := caFile (this s) in
  let debug := (DebugLevel, ["Trying to load"; file; "..."]) in
  let built roots :=
    Some {| addr := allocs s;
            TLSHandshakeTimeout := 10 * Second;
            TLSClientConfig :=
              {| MinVersion := VersionTLS10;
                 InsecureSkipVerify := false;
                 RootCAs := roots |} |} in
  match ioutil_ReadFile env file with
  | inr data =>
      if AppendCertsFromPEM env data
      then createTransport env s
           = {| this := set_Transport (set_caData (this s) data)
                          (built (Some data));
                allocs := S (allocs s);
                logs := (logs s ++ [debug])%list |}
      else createTransport env s
           = {| this := set_Transport (this s) (built None);
                allocs := S (allocs s);
                logs := (logs s ++ [debug;
                           (ErrorLevel, ["Failed to parse PEM in"; file])])%list |}
  | inl e =>
      createTransport env s
      = {| this := set_Transport (this s) (built None);
           allocs := S (allocs s);
           logs := (logs s ++ debug ::
                      if os_IsNotExist env e then []
                      else [(ErrorLevel, ["Failed to load"; file; e])])%list |}
  end.
Proof.
  intros Hfile Hverify file debug built. subst file debug built.
  unfold createTransport.
  apply String.eqb_neq in Hfile. rewrite Hfile, Hverify. simpl.
  destruct (ioutil_ReadFile env (caFile (this s))) as [e | data].
  - destruct (os_IsNotExist env e); simpl; [done |].
    by rewrite <- app_assoc.
  - destruct (AppendCertsFromPEM env data); simpl; [done |].
    by rewrite <- app_assoc.
Qed.

End CreateTransportProperties.

(** X9.  [createTransport] always installs a transport: at the next free
    address, with TLS 1.0 as minimum version, the client's skip-verify flag
    and a ten second handshake timeout.  It trusts a root set exactly when
    a CA file is named, verification is on, the file can be read and holds
    a certificate; the bytes read are then also cached as [caData].  In
    every other case there are no roots and [caData] is left as it was. *)
Theorem createTransport_trust
    {URL Obj Target : Type} (env : network.Env URL Obj Target)
    (s : network.state URL) :
  ∃ t,
    network.Transport (network.this (network.createTransport env s)) = Some t
    ∧ network.addr t = network.allocs s
    ∧ network.TLSHandshakeTimeout t = (10 * network.Second)%Z
    ∧ network.MinVersion (network.TLSClientConfig t) = network.VersionTLS10
    ∧ network.InsecureSkipVerify (network.TLSClientConfig t)
      = network.skipVerify (network.this s)
    ∧ (∀ data,
         network.RootCAs (network.TLSClientConfig t) = Some data
         ↔ network.caFile (network.this s) ≠ ""
           ∧ network.skipVerify (network.this s) = false
           ∧ network.ioutil_ReadFile env (network.caFile (network.this s))
             = inr data
           ∧ network.AppendCertsFromPEM env data = true)
    ∧ (∀ data,
         network.RootCAs (network.TLSClientConfig t) = Some data →
         network.caData (network.this (network.createTransport env s)) = data)
    ∧ (network.RootCAs (network.TLSClientConfig t) = None →
       network.caData (network.this (network.createTransport env s))
       = network.caData (network.this s)).
Proof.
  destruct (decide (network.caFile (network.this s) = "")) as [Hfile | Hfile].
  { rewrite (createTransport_no_load env s (or_introl Hfile)).
    eexists. split; [reflexivity |]. simpl.
    repeat split; try done. by intros (? & _). }
  destruct (network.skipVerify (network.this s)) eqn:Hskip.
  { rewrite (createTransport_no_load env s (or_intror Hskip)).
    eexists. split; [reflexivity |]. simpl.
    repeat split; try done. by intros (_ & ? & _). }
  pose proof (createTransport_load env s Hfile Hskip) as Hload.
  cbv zeta in Hload.
  destruct (network.ioutil_ReadFile env (network.caFile (network.this s)))
    as [e | data] eqn:Hread.
  { rewrite Hload. eexists. split; [reflexivity |]. simpl.
    repeat split; try done. by intros (_ & _ & ? & _). }
  destruct (network.AppendCertsFromPEM env data) eqn:Hpem; rewrite Hload;
    (eexists; split; [reflexivity |]); simpl.
  - do 4 (split; [done |]). split; [| split].
    + intros data'. split; [by intros [= <-] |].
      by intros (_ & _ & [= <-] & _).
    + by intros data' [= <-].
    + done.
  - do 4 (split; [done |]). split; [| split]; [| done..].
    intros data'. split; [done |].
    intros (_ & _ & [= <-] & ?). congruence.
Qed.

(** A verifying client whose CA file holds a certificate caches the file. *)
Lemma createTransport_trust_witness :
  let env :=
    ca_scenario.world (inr 5%Z) 9%Z (inr (list_byte_of_string "PEM"))
      false true true in
  let s := ca_scenario.verifying in
  network.caData (network.this (network.createTransport env s))
  = list_byte_of_string "PEM".
Proof.
  intros env s.
  destruct (createTransport_trust env s)
    as (t & Ht & _ & _ & _ & _ & _ & Hcache & _).
  apply Hcache.
  injection Ht as <-. reflexivity.
Defined.

(** X10.  Without a CA file, or with verification skipped,
    [createTransport] does not look at the file system: the transport it
    builds, the cached bytes and the log are the same whatever the files
    hold, and the cached bytes and the log are those from before. *)
Theorem createTransport_skips_files
    {URL Obj Target : Type} (env env' : network.Env URL Obj Target)
    (s : network.state URL) :
  network.caFile (network.this s) = ""
  ∨ network.skipVerify (network.this s) = true →
  network.createTransport env s = network.createTransport env' s
  ∧ network.caData (network.this (network.createTransport env s))
    = network.caData (network.this s)
  ∧ network.logs (network.createTransport env s) = network.logs s.
Proof.
  intros Hoff.
  by rewrite (createTransport_no_load env s Hoff),
             (createTransport_no_load env' s Hoff).
Qed.

Lemma createTransport_skips_files_witness :
  network.createTransport
    (net_scenario.coordinator (net_scenario.page 200 "200 OK" "text/html" ""))
    net_scenario.fresh
  = network.createTransport
      (net_scenario.coordinator (net_scenario.page 500 "500" "text/plain" "x"))
      net_scenario.fresh.
Proof.
  apply (createTransport_skips_files
           (net_scenario.coordinator (net_scenario.page 200 "200 OK" "text/html" ""))
           (net_scenario.coordinator (net_scenario.page 500 "500" "text/plain" "x"))
           net_scenario.fresh).
  left. reflexivity.
Defined.

(** X11.  A CA file that cannot be used does not stop [createTransport]:
    with a CA file named and verification on, a transport is allocated and
    installed in every case, the log grows by the debug line and, exactly
    when the file is there but cannot be read or holds no certificate, by
    one error line; a file that does not exist is passed over in silence. *)
Theorem createTransport_soft_failure
    {URL Obj Target : Type} (env : network.Env URL Obj Target)
    (s : network.state URL) :
  network.caFile (network.this s) ≠ "" →
  network.skipVerify (network.this s) = false →
  (∃ t, network.Transport (network.this (network.createTransport env s))
        = Some t
        ∧ network.addr t = network.allocs s)
  ∧ network.allocs (network.createTransport env s) = S (network.allocs s)
  ∧ ∃ errors,
    network.logs (network.createTransport env s)
    = (network.logs s
       ++ (network.DebugLevel,
           ["Trying to load"; network.caFile (network.this s); "..."])
       :: errors)%list
    ∧ (errors = [] ↔
       (∃ data,
          network.ioutil_ReadFile env (network.caFile (network.this s))
          = inr data
          ∧ network.AppendCertsFromPEM env data = true)
       ∨ (∃ e,
            network.ioutil_ReadFile env (network.caFile (network.this s))
            = inl e
            ∧ network.os_IsNotExist env e = true))
    ∧ (∀ entry, entry ∈ errors → fst entry = network.ErrorLevel)
    ∧ (length errors ≤ 1)%nat.
Proof.
  intros Hfile Hverify.
  destruct (createTransport_builds env s) as (Hallocs & Hbuilt & _).
  split; [exact Hbuilt |]. split; [exact Hallocs |]. clear Hallocs Hbuilt.
  pose proof (createTransport_load env s Hfile Hverify) as Hload.
  cbv zeta in Hload.
  destruct (network.ioutil_ReadFile env (network.caFile (network.this s)))
    as [e | data] eqn:Hread.
  - rewrite Hload. simpl.
    destruct (network.os_IsNotExist env e) eqn:Hne.
    + exists []. split; [done |]. split; [| split; [| simpl; lia]].
      * split; [| done]. intros _. right. by exists e.
      * by intros entry ?%elem_of_nil.
    + eexists [_]. split; [done |]. split; [| split; [| simpl; lia]].
      * split; [done |].
        intros [(? & ? & _) | (e' & [= <-] & ?)]; congruence.
      * by intros entry ->%list_elem_of_singleton.
  - destruct (network.AppendCertsFromPEM env data) eqn:Hpem; rewrite Hload;
      simpl.
    + exists []. split; [done |]. split; [| split; [| simpl; lia]].
      * split; [| done]. intros _. left. by exists data.
      * by intros entry ?%elem_of_nil.
    + eexists [_]. split; [done |]. split; [| split; [| simpl; lia]].
      * split; [done |].
        intros [(d & [= <-] & ?) | (? & ? & _)]; congruence.
      * by intros entry ->%list_elem_of_singleton.
Qed.

Lemma createTransport_soft_failure_witness :
  let env :=
    ca_scenario.world (inr 5%Z) 9%Z (inl "permission denied")
      false true true in
  let s := ca_scenario.verifying in
  is_Some (network.Transport (network.this (network.createTransport env s)))
  ∧ ∃ errors,
    network.logs (network.createTransport env s)
    = (network.DebugLevel, ["Trying to load"; "ci.crt"; "..."]) :: errors
    ∧ errors ≠ [].
Proof.
  intros env s.
  destruct (createTransport_soft_failure env s)
    as ((t & Ht & _) & _ & errors & Hlogs & Hnone & _);
    [discriminate | reflexivity |].
  split; [by exists t |].
  exists errors. split; [exact Hlogs |].
  intros Hempty. apply Hnone in Hempty.
  destruct Hempty as [(? & ? & _) | (? & _ & ?)]; discriminate.
Defined.

(** ** More on the adaptive TLS transport *)

Section EnsureTLSConfigMore.

Import network.

Context {URL Obj Target : Type}.
Variable env : Env URL Obj Target.

(** After the call the client has a transport, and the fields that say
    where the client connects and what it trusts by configuration are
    untouched. *)
Lemma ensureTLSConfig_post (s : state URL) :
  is_Some (Transport (this (ensureTLSConfig env s)))
  ∧ url (this (ensureTLSConfig env s)) = url (this s)
  ∧ caFile (this (ensureTLSConfig env s)) = caFile (this s)
  ∧ skipVerify (this (ensureTLSConfig env s)) = skipVerify (this s).
Proof.
  destruct (rebuild_due_dec env s) as [Hdue | Hnot].
  - rewrite (ensureTLSConfig_due env s Hdue).
    destruct (createTransport_builds env
      (set_this s (set_updateTime (set_Transport (this s) None) (time_Now env))))
      as (_ & (t & -> & _) & _).
    destruct (createTransport_frame env
      (set_this s (set_updateTime (set_Transport (this s) None) (time_Now env))))
      as (-> & -> & -> & _).
    split; [by eexists | done].
  - rewrite (ensureTLSConfig_not_due env s Hnot).
    split; [| done].
    destruct (Transport (this s)) eqn:Ht; [by eexists |].
    destruct Hnot. by left.
Qed.

Lemma ensureTLSConfig_stamp (s : state URL) :
  rebuild_due env s →
  updateTime (this (ensureTLSConfig env s)) = time_Now env.
Proof.
  intros Hdue. rewrite (ensureTLSConfig_due env s Hdue).
  by destruct (createTransport_builds env
    (set_this s (set_updateTime (set_Transport (this s) None) (time_Now env))))
    as (_ & _ & ->).
Qed.

End EnsureTLSConfigMore.

(** X12.  After [ensureTLSConfig] the client always has a transport, so a
    request never goes out without one; the URL, the CA file name and the
    skip-verify flag are what they were, and at most one transport was
    allocated. *)
Theorem ensureTLSConfig_has_transport
    {URL Obj Target : Type} (env : network.Env URL Obj Target)
    (s : network.state URL) :
  let s' := network.ensureTLSConfig env s in
  is_Some (network.Transport (network.this s'))
  ∧ network.url (network.this s') = network.url (network.this s)
  ∧ network.caFile (network.this s') = network.caFile (network.this s)
  ∧ network.skipVerify (network.this s') = network.skipVerify (network.this s)
  ∧ (network.allocs s ≤ network.allocs s' ≤ S (network.allocs s))%nat.
Proof.
  intros s'. subst s'.
  destruct (ensureTLSConfig_post env s) as (Ht & Hu & Hf & Hv).
  do 4 (split; [done |]).
  destruct (rebuild_due_dec env s) as [Hdue | Hnot].
  - rewrite (ensureTLSConfig_due env s Hdue).
    destruct (createTransport_builds env
      (network.set_this s
         (network.set_updateTime
            (network.set_Transport (network.this s) None)
            (network.time_Now env)))) as (-> & _).
    simpl. lia.
  - rewrite (ensureTLSConfig_not_due env s Hnot). lia.
Qed.

(** X13.  Once [ensureTLSConfig] has run, running it again, then or later,
    changes nothing as long as the CA file cannot be stat'ed or its
    modification time is not after the client's [updateTime].  In
    particular two calls in a row are one call when the file's modification
    time is not after the current time. *)
Theorem ensureTLSConfig_settles
    {URL Obj Target : Type} (env later : network.Env URL Obj Target)
    (s : network.state URL) :
  ((∀ m, network.os_Stat later (network.caFile (network.this s)) = inr m →
         (m ≤ network.updateTime (network.this (network.ensureTLSConfig env s)))%Z) →
   network.ensureTLSConfig later (network.ensureTLSConfig env s)
   = network.ensureTLSConfig env s)
  ∧ ((∀ m, network.os_Stat env (network.caFile (network.this s)) = inr m →
           (m ≤ network.time_Now env)%Z) →
     network.ensureTLSConfig env (network.ensureTLSConfig env s)
     = network.ensureTLSConfig env s).
Proof.
  assert (∀ env2 : network.Env URL Obj Target,
    (∀ m, network.os_Stat env2 (network.caFile (network.this s)) = inr m →
          (m ≤ network.updateTime (network.this (network.ensureTLSConfig env s)))%Z) →
    network.ensureTLSConfig env2 (network.ensureTLSConfig env s)
    = network.ensureTLSConfig env s) as Hlater.
  { intros env2 Hold. apply ensureTLSConfig_not_due.
    destruct (ensureTLSConfig_post env s) as ([t Ht] & _ & Hfile & _).
    intros [Hnone | (m & Hstat & Hnew)]; [congruence |].
    rewrite Hfile in Hstat. specialize (Hold m Hstat). lia. }
  split; [apply Hlater |].
  intros Hold.
  destruct (rebuild_due_dec env s) as [Hdue | Hnot].
  - apply Hlater. intros m Hm.
    rewrite (ensureTLSConfig_stamp env s Hdue). by apply Hold.
  - by rewrite !(ensureTLSConfig_not_due env s Hnot).
Qed.

Lemma ensureTLSConfig_settles_witness :
  let env := net_scenario.coordinator (net_scenario.page 200 "200 OK" "text/html" "") in
  network.ensureTLSConfig env (network.ensureTLSConfig env net_scenario.fresh)
  = network.ensureTLSConfig env net_scenario.fresh.
Proof.
  intros env.
  apply (ensureTLSConfig_settles env env net_scenario.fresh).
  intros m Hm. discriminate Hm.
Defined.

(** X14.  A CA file dated after the current time defeats the check: each
    call that rebuilds stamps the client with the current time, which is
    still before the file's modification time, so the next call at that
    time rebuilds again, and every call allocates a transport. *)
Theorem ensureTLSConfig_future_file
    {URL Obj Target : Type} (env : network.Env URL Obj Target)
    (s : network.state URL) (m : network.Time) :
  network.os_Stat env (network.caFile (network.this s)) = inr m →
  (network.time_Now env < m)%Z →
  network.rebuild_due env s →
  network.rebuild_due env (network.ensureTLSConfig env s)
  ∧ network.allocs (network.ensureTLSConfig env (network.ensureTLSConfig env s))
    = S (S (network.allocs s)).
Proof.
  intros Hstat Hfuture Hdue.
  assert (network.rebuild_due env (network.ensureTLSConfig env s)) as Hagain.
  { right. exists m.
    destruct (ensureTLSConfig_post env s) as (_ & _ & -> & _).
    split; [done |]. by rewrite (ensureTLSConfig_stamp env s Hdue). }
  split; [exact Hagain |].
  rewrite (ensureTLSConfig_due env _ Hagain).
  destruct (createTransport_builds env
    (network.set_this (network.ensureTLSConfig env s)
       (network.set_updateTime
          (network.set_Transport
             (network.this (network.ensureTLSConfig env s)) None)
          (network.time_Now env)))) as (-> & _).
  simpl. rewrite (ensureTLSConfig_due env s Hdue).
  destruct (createTransport_builds env
    (network.set_this s
       (network.set_updateTime
          (network.set_Transport (network.this s) None)
          (network.time_Now env)))) as (-> & _).
  done.
Qed.

Lemma ensureTLSConfig_future_file_witness :
  let env :=
    ca_scenario.world (inr 50%Z) 9%Z (inl "permission denied")
      false true true in
  network.allocs
    (network.ensureTLSConfig env (network.ensureTLSConfig env net_scenario.fresh))
  = 2.
Proof.
  intros env.
  apply (ensureTLSConfig_future_file env net_scenario.fresh 50%Z);
    [reflexivity | reflexivity | left; reflexivity].
Defined.

(** ** More on trust-chain extraction *)

Section GetCAChainMore.

Import network.

Context {URL Obj Target : Type}.
Variable env : Env URL Obj Target.

(** Only membership in [seen] matters. *)
Lemma first_seen_ext seen1 seen2 (l : list Certificate) :
  (∀ x, x ∈ seen1 ↔ x ∈ seen2) →
  first_seen seen1 l = first_seen seen2 l.
Proof.
  revert seen1 seen2. induction l as [| c l IH]; intros seen1 seen2 Hsame;
    [done |].
  simpl. destruct (decide (Signature c ∈ seen1)) as [H1 | H1].
  - rewrite decide_True by (by apply Hsame). by apply IH.
  - rewrite decide_False by (by rewrite <- Hsame).
    f_equal. apply IH. intros x. rewrite !elem_of_cons, Hsame. done.
Qed.

(** Certificates whose signatures were all seen add nothing. *)
Lemma first_seen_all_seen seen (l : list Certificate) :
  (∀ c, c ∈ l → Signature c ∈ seen) → first_seen seen l = [].
Proof.
  induction l as [| c l IH]; intros Hall; [done |].
  simpl. rewrite decide_True by (apply Hall; by left).
  apply IH. intros c' Hc'. apply Hall. by right.
Qed.

(** A list in two parts: the second part is read with the signatures kept
    from the first part seen as well. *)
Lemma first_seen_app seen (l1 l2 : list Certificate) :
  first_seen seen (l1 ++ l2)%list
  = (first_seen seen l1
     ++ first_seen ((Signature <$> first_seen seen l1) ++ seen)%list l2)%list.
Proof.
  revert seen. induction l1 as [| c l1 IH]; intros seen; [done |].
  simpl. destruct (decide (Signature c ∈ seen)) as [Hin | Hout]; [apply IH |].
  rewrite IH. simpl. f_equal. f_equal.
  apply first_seen_ext. intros x.
  rewrite elem_of_app, !elem_of_cons, elem_of_app. tauto.
Qed.

(** The second loop only logs. *)
Lemma fold_encode_state (certificates : list Certificate) out (s : state URL) :
  let s' := snd (fold_left (encode env) certificates (out, s)) in
  this s' = this s ∧ allocs s' = allocs s
  ∧ ∃ warnings,
      logs s' = (logs s ++ warnings)%list
      ∧ (∀ entry, entry ∈ warnings → fst entry = WarnLevel)
      ∧ ((∀ c, c ∈ certificates →
               snd (pem_Encode env {| Type_ := "CERTIFICATE"; Bytes := Raw c |})
               = None) →
         warnings = []).
Proof.
  revert out s. induction certificates as [| c l IH]; intros out s; simpl.
  - split; [done |]. split; [done |]. exists [].
    split; [by rewrite app_nil_r |]. split; [| done].
    by intros entry ?%elem_of_nil.
  - destruct (pem_Encode env {| Type_ := "CERTIFICATE"; Bytes := Raw c |})
      as [written e] eqn:Hpem.
    destruct e as [e |].
    + specialize (IH (out ++ written)
        (log s WarnLevel ["Failed to encode certificate from chain:"; e])).
      cbv zeta in IH. destruct IH as (-> & -> & warnings & -> & Hlevel & _).
      split; [done |]. split; [done |].
      eexists (_ :: warnings). simpl. rewrite <- app_assoc.
      split; [done |]. split.
      * intros entry [-> | ?]%elem_of_cons; [done | by apply Hlevel].
      * intros Hok. specialize (Hok c (list_elem_of_here _ _)).
        rewrite Hpem in Hok. done.
    + specialize (IH (out ++ written) s).
      cbv zeta in IH. destruct IH as (-> & -> & warnings & -> & Hlevel & Hnone).
      split; [done |]. split; [done |].
      exists warnings. split; [done |]. split; [done |].
      intros Hok. apply Hnone. intros c' Hc'. apply Hok. by right.
Qed.

End GetCAChainMore.

(** X15.  [getCAChain] changes nothing of the client and allocates
    nothing; all it can do besides computing the chain is log warnings, and
    only for certificates [pem.Encode] fails on.  When it answers from the
    cached bytes or has no connection state, the state is left as it is. *)
Theorem getCAChain_only_logs
    {URL Obj Target : Type} (env : network.Env URL Obj Target)
    (tls : option network.ConnectionState) (s : network.state URL) :
  let s' := snd (network.getCAChain env tls s) in
  network.this s' = network.this s
  ∧ network.allocs s' = network.allocs s
  ∧ (∃ warnings,
       network.logs s' = (network.logs s ++ warnings)%list
       ∧ (∀ entry, entry ∈ warnings → fst entry = network.WarnLevel))
  ∧ (network.caData (network.this s) ≠ [] ∨ tls = None → s' = s)
  ∧ ((∀ b, snd (network.pem_Encode env b) = None) → s' = s).
Proof.
  intros s'. subst s'. unfold network.getCAChain.
  destruct (network.caData (network.this s)) as [| b data] eqn:Hdata; simpl.
  - destruct tls as [tls |]; simpl.
    + destruct (network.collect (network.VerifiedChains tls))
        as [certificates seen].
      pose proof (fold_encode_state env certificates "" s) as H.
      cbv zeta in H. destruct H as (Hthis & Hallocs & warnings & Hlogs & Hlevel & Hnone).
      split; [done |]. split; [done |]. split; [by exists warnings |].
      split; [by intros [? | ?] |].
      intros Hok.
      rewrite (Hnone (λ c _, Hok _)), app_nil_r in Hlogs.
      destruct (fold_left (network.encode env) certificates ("", s)).2
        as [n a l]. simpl in *. by subst; destruct s.
    + split; [done |]. split; [done |]. split; [| done].
      exists []. split; [by rewrite app_nil_r |]. by intros ? ?%elem_of_nil.
  - split; [done |]. split; [done |]. split; [| done].
    exists []. split; [by rewrite app_nil_r |]. by intros ? ?%elem_of_nil.
Qed.

Lemma getCAChain_only_logs_witness :
  snd (network.getCAChain
         (net_scenario.coordinator (net_scenario.page 200 "200 OK" "text/html" ""))
         (Some {| network.VerifiedChains :=
                    [[net_scenario.cert "leaf" "s1"; net_scenario.cert "issuer" "s2"]] |})
         net_scenario.fresh)
  = net_scenario.fresh.
Proof.
  pose proof (getCAChain_only_logs
    (net_scenario.coordinator (net_scenario.page 200 "200 OK" "text/html" ""))
    (Some {| network.VerifiedChains :=
               [[net_scenario.cert "leaf" "s1"; net_scenario.cert "issuer" "s2"]] |})
    net_scenario.fresh) as H.
  cbv zeta in H. destruct H as (_ & _ & _ & _ & H).
  apply H. reflexivity.
Defined.

(** X16.  A verified chain that brings no new signature does not change
    the chain returned: in particular a connection that reports the same
    verified chain twice gives what it gives for the chain once. *)
Theorem getCAChain_redundant_chain
    {URL Obj Target : Type} (env : network.Env URL Obj Target)
    (s : network.state URL)
    (chains : list (list network.Certificate))
    (extra : list network.Certificate) :
  (∀ c, c ∈ extra →
        network.Signature c ∈ network.Signature <$> concat chains) →
  fst (network.getCAChain env
         (Some {| network.VerifiedChains := (chains ++ [extra])%list |}) s)
  = fst (network.getCAChain env
           (Some {| network.VerifiedChains := chains |}) s).
Proof.
  intros Hseen.
  destruct (decide (network.caData (network.this s) = [])) as [Hdata | Hdata].
  - rewrite !(getCAChain_derived env _ s Hdata). simpl.
    rewrite concat_app. simpl. rewrite app_nil_r.
    rewrite first_seen_app.
    rewrite (first_seen_all_seen _ extra); [by rewrite app_nil_r |].
    intros c Hc. apply elem_of_app. left.
    apply Hseen in Hc as (c' & -> & Hc')%list_elem_of_fmap.
    by destruct (first_seen_covers [] (concat chains) c' Hc')
      as [?%elem_of_nil | ?].
  - by rewrite !(getCAChain_cached env _ s Hdata).
Qed.

Lemma getCAChain_redundant_chain_witness :
  let env := net_scenario.coordinator (net_scenario.page 200 "200 OK" "text/html" "") in
  let chain := [net_scenario.cert "leaf" "s1"; net_scenario.cert "issuer" "s2"] in
  fst (network.getCAChain env
         (Some {| network.VerifiedChains := [chain; chain] |}) net_scenario.fresh)
  = fst (network.getCAChain env
           (Some {| network.VerifiedChains := [chain] |}) net_scenario.fresh).
Proof.
  intros env chain.
  apply (getCAChain_redundant_chain env net_scenario.fresh [chain] chain).
  intros c Hc. apply list_elem_of_fmap_2.
  cbn [concat]. by rewrite app_nil_r.
Defined.

(** ** More on the JSON call envelope *)

(** X17.  A result of -1 never carries a trust chain: provided no response
    has -1 as its status code, whenever [doJSON] returns -1 the third
    component is the empty string, so a caller that stores the chain it is
    given stores nothing after a failure. *)
Theorem doJSON_failure_has_no_chain
    {URL Obj Target : Type} (env : network.Env URL Obj Target)
    (uri method : string) (statusCode : Z)
    (request : option Obj) (response : option Target) (s : network.state URL) :
  (∀ body res s',
     network.marshal_body env request = inr body →
     network.do env uri method body "application/json"
       (Some (network.accept_headers response)) s = (inr res, s') →
     network.StatusCode res ≠ (-1)%Z) →
  (network.doJSON env uri method statusCode request response s).1.1.1.1 = (-1)%Z →
  (network.doJSON env uri method statusCode request response s).1.1.2 = "".
Proof.
  intros Hstatus. unfold network.doJSON.
  destruct (network.marshal_body env request) as [message | body] eqn:Hbody;
    [done |].
  destruct (network.do env uri method body "application/json"
              (Some (network.accept_headers response)) s) as [[e | res] s']
    eqn:Hdo; [done |].
  specialize (Hstatus body res s' eq_refl Hdo).
  destruct (network.getCAChain env (network.TLS res) s') as [chain s''].
  destruct (network.StatusCode res =? statusCode)%Z; [| done].
  destruct response as [target |]; [| done].
  destruct (negb _); [done |].
  by destruct (network.json_Decode env (network.resp_Body res) target)
    as [target' [e |]].
Qed.

Lemma doJSON_failure_has_no_chain_witness :
  (network.doJSON
     (net_scenario.coordinator
        (net_scenario.page 200 "200 OK" "text/html" "<html>"))
     "builds/register.json" "POST" 200 (Some "{}") (Some "")
     net_scenario.fresh).1.1.2
  = "".
Proof.
  apply (doJSON_failure_has_no_chain
    (net_scenario.coordinator
       (net_scenario.page 200 "200 OK" "text/html" "<html>"))
    "builds/register.json" "POST" 200 (Some "{}") (Some "")
    net_scenario.fresh).
  - intros body res s' _ [= <- _]. discriminate.
  - reflexivity.
Defined.

(** X18.  Failures on the way to the server are returned as data, with -1,
    a message that says what failed and no chain, and leave [response] as
    it was.  A request that does not marshal, a URL that does not resolve
    and a request that cannot be built are found before the transport is
    looked at: the state is the one from before the call.  A failure of the
    transport comes after [ensureTLSConfig], whose state is the one left. *)
Theorem doJSON_failures
    {URL Obj Target : Type} (env : network.Env URL Obj Target)
    (uri method : string) (statusCode : Z)
    (request : option Obj) (response : option Target) (s : network.state URL) :
  let result := network.doJSON env uri method statusCode request response s in
  (∀ o e, request = Some o → network.json_Marshal env o = inl e →
          result
          = (((-1)%Z, "failed to marshal project object: " ++ e, ""),
             response, s))
  ∧ (∀ body e,
       network.marshal_body env request = inr body →
       network.URL_Parse env (network.url (network.this s)) uri = inl e →
       result = (((-1)%Z, e, ""), response, s))
  ∧ (∀ body u e,
       network.marshal_body env request = inr body →
       network.URL_Parse env (network.url (network.this s)) uri = inr u →
       network.http_NewRequest env method (network.URL_String env u) body
       = inl e →
       result
       = (((-1)%Z, "failed to create NewRequest: " ++ e, ""), response, s))
  ∧ (∀ body u req e,
       network.marshal_body env request = inr body →
       network.URL_Parse env (network.url (network.this s)) uri = inr u →
       network.http_NewRequest env method (network.URL_String env u) body
       = inr req →
       network.client_Do env (network.this (network.ensureTLSConfig env s))
         (network.with_headers env req body "application/json"
            (Some (network.accept_headers response)))
       = inl e →
       result
       = (((-1)%Z,
           "couldn't execute " ++ network.Method req ++ " against "
           ++ network.req_URL req ++ ": " ++ e, ""),
          response, network.ensureTLSConfig env s)).
Proof.
  intros result. subst result. split; [| split; [| split]].
  - intros o e -> He. apply doJSON_marshal_failure.
    unfold network.marshal_body. by rewrite He.
  - intros body e Hbody Hparse.
    apply (doJSON_do_failure env _ _ _ _ _ _ body); [done |].
    unfold network.do. by rewrite Hparse.
  - intros body u e Hbody Hparse Hnew.
    apply (doJSON_do_failure env _ _ _ _ _ _ body); [done |].
    unfold network.do. by rewrite Hparse, Hnew.
  - intros body u req e Hbody Hparse Hnew Hdo.
    apply (doJSON_do_failure env _ _ _ _ _ _ body); [done |].
    unfold network.do. rewrite Hparse, Hnew. cbv zeta. rewrite Hdo.
    do 3 f_equal.
    unfold network.with_headers.
    by destruct body.
Qed.

Lemma doJSON_failures_witness :
  let env :=
    ca_scenario.world (inl "no such file or directory") 9%Z
      (inl "no such file or directory")
      true false false in
  network.doJSON env "%zz" "GET" 200 None (Some "before") net_scenario.fresh
  = (((-1)%Z, "invalid URL escape", ""), Some "before", net_scenario.fresh).
Proof.
  intros env.
  pose proof (doJSON_failures env "%zz" "GET" 200 None (Some "before")
                net_scenario.fresh) as H.
  cbv zeta in H. destruct H as (_ & H & _).
  apply (H None "invalid URL escape"); reflexivity.
Defined.

Section RequestSentProperties.

Import network.

Context {URL Obj Target : Type}.
Variable env : Env URL Obj Target.

(** What the two header steps of [do] leave on the request when the
    caller's headers are those [doJSON] builds. *)
Lemma with_headers_carries (req : Request) (body : option (list byte))
    (response : option Target) :
  let sent :=
    with_headers env req body "application/json"
      (Some (accept_headers response)) in
  Method sent = Method req
  ∧ req_URL sent = req_URL req
  ∧ req_Body sent = req_Body req
  ∧ req_Header sent !! "Accept"
    = match response with Some _ => Some ["application/json"] | None => None end
  ∧ req_Header sent !! "Content-Type"
    = match body with Some _ => Some ["application/json"] | None => None end
  ∧ req_Header sent !! "User-Agent"
    = match body with Some _ => Some [UserAgent env] | None => None end
  ∧ (∀ key, key ≠ "Accept" → key ≠ "Content-Type" → key ≠ "User-Agent" →
            req_Header sent !! key = None).
Proof.
  unfold with_headers, accept_headers, Header_Set.
  destruct body, response; simpl; repeat split; try done;
    try (by simplify_map_eq);
    intros key H1 H2 H3; by simplify_map_eq.
Qed.

(** [do] with another transport: the transport is asked once, about the
    request with the headers set, by the client [ensureTLSConfig] left. *)
Lemma do_asks_transport transport uri method body requestType headers
    (s : state URL) u req :
  URL_Parse env (url (this s)) uri = inr u →
  http_NewRequest env method (URL_String env u) body = inr req →
  do (with_client_Do env transport) uri method body requestType headers s
  = (match transport (this (ensureTLSConfig env s))
             (with_headers env req body requestType headers) with
     | inl e =>
         inl ("couldn't execute " ++ Method req ++ " against "
              ++ req_URL req ++ ": " ++ e)
     | inr res => inr res
     end,
     ensureTLSConfig env s).
Proof.
  intros Hparse Hnew. unfold do.
  change (URL_Parse (with_client_Do env transport)) with (URL_Parse env).
  change (URL_String (with_client_Do env transport)) with (URL_String env).
  change (http_NewRequest (with_client_Do env transport))
    with (http_NewRequest env).
  rewrite Hparse, Hnew. cbv zeta.
  change (ensureTLSConfig (with_client_Do env transport) s)
    with (ensureTLSConfig env s).
  change (with_headers (with_client_Do env transport))
    with (with_headers env).
  change (client_Do (with_client_Do env transport)) with transport.
  assert (Method (with_headers env req body requestType headers) = Method req
          ∧ req_URL (with_headers env req body requestType headers)
            = req_URL req) as [-> ->].
  { unfold with_headers. by destruct headers, body. }
  by destruct (transport _ _).
Qed.

(** [doJSON] looks at the transport through [do] only. *)
Lemma doJSON_with_client_Do transport1 transport2 uri method statusCode
    request response (s : state URL) body :
  marshal_body env request = inr body →
  do (with_client_Do env transport1) uri method body "application/json"
     (Some (accept_headers response)) s
  = do (with_client_Do env transport2) uri method body "application/json"
       (Some (accept_headers response)) s →
  doJSON (with_client_Do env transport1) uri method statusCode request response s
  = doJSON (with_client_Do env transport2) uri method statusCode request response s.
Proof.
  intros Hbody Hdo. unfold doJSON.
  change (marshal_body (with_client_Do env transport1))
    with (marshal_body env).
  change (marshal_body (with_client_Do env transport2))
    with (marshal_body env).
  rewrite Hbody, Hdo.
  destruct (do (with_client_Do env transport2) uri method body
              "application/json" (Some (accept_headers response)) s)
    as [[e | res] s']; [done |].
  change (getCAChain (with_client_Do env transport1))
    with (getCAChain env).
  change (getCAChain (with_client_Do env transport2))
    with (getCAChain env).
  change (json_Decode (with_client_Do env transport1)) with (json_Decode env).
  change (json_Decode (with_client_Do env transport2)) with (json_Decode env).
  done.
Qed.

End RequestSentProperties.

(** X19.  What [doJSON] sends.  When the request marshals, the URL
    resolves and the request is built, there is one request that [doJSON]
    hands to the transport, whatever the transport is: [do] returns what
    the transport answers for that request, asked by the client as
    [ensureTLSConfig] left it, and the result of [doJSON] depends on the
    transport through that answer alone.  That request has the method, URL
    and body of the request built and exactly these headers, whatever
    [http.NewRequest] had set: [Accept] asking for JSON if and only if a
    response is to be filled; [Content-Type], the JSON one, and
    [User-Agent] if and only if there is a body. *)
Theorem doJSON_request_headers
    {URL Obj Target : Type} (env : network.Env URL Obj Target)
    (uri method : string) (statusCode : Z)
    (request : option Obj) (response : option Target) (s : network.state URL)
    (body : option (list byte)) (u : URL) (req : network.Request) :
  network.marshal_body env request = inr body →
  network.URL_Parse env (network.url (network.this s)) uri = inr u →
  network.http_NewRequest env method (network.URL_String env u) body = inr req →
  ∃ sent,
    network.Method sent = network.Method req
    ∧ network.req_URL sent = network.req_URL req
    ∧ network.req_Body sent = network.req_Body req
    ∧ network.req_Header sent !! "Accept"
      = match response with Some _ => Some ["application/json"] | None => None end
    ∧ network.req_Header sent !! "Content-Type"
      = match body with Some _ => Some ["application/json"] | None => None end
    ∧ network.req_Header sent !! "User-Agent"
      = match body with Some _ => Some [network.UserAgent env] | None => None end
    ∧ (∀ key, key ≠ "Accept" → key ≠ "Content-Type" → key ≠ "User-Agent" →
              network.req_Header sent !! key = None)
    ∧ (∀ transport,
         network.do (with_client_Do env transport) uri method body
           "application/json" (Some (network.accept_headers response)) s
         = (match transport
                    (network.this (network.ensureTLSConfig env s)) sent with
            | inl e =>
                inl ("couldn't execute " ++ network.Method req ++ " against "
                     ++ network.req_URL req ++ ": " ++ e)
            | inr res => inr res
            end,
            network.ensureTLSConfig env s))
    ∧ (∀ transport,
         network.doJSON (with_client_Do env transport) uri method statusCode
           request response s
         = network.doJSON
             (with_client_Do env
                (λ _ _, transport
                          (network.this (network.ensureTLSConfig env s)) sent))
             uri method statusCode request response s).
Proof.
  intros Hbody Hparse Hnew.
  exists (network.with_headers env req body "application/json"
            (Some (network.accept_headers response))).
  pose proof (with_headers_carries env req body response) as Hsent.
  cbv zeta in Hsent.
  destruct Hsent as (Hm & Hu & Hb & Ha & Hc & Hua & Hother).
  do 7 (split; [done |]). split.
  - intros transport. by apply (do_asks_transport env _ _ _ _ _ _ _ u req).
  - intros transport. apply (doJSON_with_client_Do env _ _ _ _ _ _ _ _ body);
      [done |].
    by rewrite !(do_asks_transport env _ _ _ _ _ _ _ u req Hparse Hnew).
Qed.

(** The transport is asked about a request without the header that
    [http.NewRequest] had set, and with [Accept]. *)
Lemma doJSON_request_headers_witness :
  let env := net_scenario.coordinator (net_scenario.page 200 "200 OK" "text/html" "") in
  let built (method u : string) (body : option (list byte)) : error + network.Request :=
    inr {| network.Method := method; network.req_URL := u;
           network.req_Body := body;
           network.req_Header := network.Header_Set ∅ "X-Trace" "1" |} in
  let probe (c : network.client string) (sent : network.Request)
    : error + network.Response :=
    match network.req_Header sent !! "X-Trace",
          network.req_Header sent !! "Accept" with
    | None, Some _ => inl "as expected"
    | _, _ => inl "other headers"
    end in
  (network.doJSON
     (with_client_Do
        {| network.os_Stat := network.os_Stat env;
           network.time_Now := network.time_Now env;
           network.ioutil_ReadFile := network.ioutil_ReadFile env;
           network.os_IsNotExist := network.os_IsNotExist env;
           network.AppendCertsFromPEM := network.AppendCertsFromPEM env;
           network.pem_Encode := network.pem_Encode env;
           network.URL_Parse := network.URL_Parse env;
           network.URL_String := network.URL_String env;
           network.http_NewRequest := built;
           network.client_Do := network.client_Do env;
           network.json_Marshal := network.json_Marshal env;
           network.json_Decode := network.json_Decode env;
           network.UserAgent := network.UserAgent env |}
        probe)
     "jobs/request" "GET" 200 None (Some "target") net_scenario.fresh).1.1.1.2
  = "couldn't execute GET against https://gitlab.example.com/ci/api/v1/jobs/request: as expected".
Proof.
  intros env built probe.
  destruct (doJSON_request_headers
    {| network.os_Stat := network.os_Stat env;
       network.time_Now := network.time_Now env;
       network.ioutil_ReadFile := network.ioutil_ReadFile env;
       network.os_IsNotExist := network.os_IsNotExist env;
       network.AppendCertsFromPEM := network.AppendCertsFromPEM env;
       network.pem_Encode := network.pem_Encode env;
       network.URL_Parse := network.URL_Parse env;
       network.URL_String := network.URL_String env;
       network.http_NewRequest := built;
       network.client_Do := network.client_Do env;
       network.json_Marshal := network.json_Marshal env;
       network.json_Decode := network.json_Decode env;
       network.UserAgent := network.UserAgent env |}
    "jobs/request" "GET" 200 None (Some "target") net_scenario.fresh
    None _ _ eq_refl eq_refl eq_refl)
    as (sent & _ & _ & _ & Haccept & _ & _ & Hother & _ & Hsame).
  rewrite (Hsame probe). subst probe. cbv beta.
  rewrite Haccept, (Hother "X-Trace") by discriminate.
  reflexivity.
Defined.

(** X20.  The success path: a response with the expected status and the
    JSON content type whose body decodes fills [response] with the decoded
    value and returns the received status code, the status text and the
    chain of the connection. *)
Theorem doJSON_success
    {URL Obj Target : Type} (env : network.Env URL Obj Target)
    (uri method : string) (statusCode : Z)
    (request : option Obj) (target : Target) (s : network.state URL)
    (body : option (list byte)) (res : network.Response)
    (s' : network.state URL) (decoded : Target) :
  network.marshal_body env request = inr body →
  network.do env uri method body "application/json"
    (Some (network.accept_headers (Some target))) s = (inr res, s') →
  network.StatusCode res = statusCode →
  network.Header_Get (network.resp_Header res) "Content-Type"
  = "application/json" →
  network.json_Decode env (network.resp_Body res) target = (decoded, None) →
  network.doJSON env uri method statusCode request (Some target) s
  = ((network.StatusCode res, network.Status res,
      fst (network.getCAChain env (network.TLS res) s')),
     Some decoded,
     snd (network.getCAChain env (network.TLS res) s')).
Proof.
  intros Hbody Hdo Hstatus Htype Hdecode.
  rewrite (doJSON_match env _ _ _ _ _ _ _ _ _ Hbody Hdo Hstatus).
  by rewrite Htype, Hdecode.
Qed.

Lemma doJSON_success_witness :
  (network.doJSON
     (net_scenario.coordinator
        (net_scenario.page 201 "201 Created" "application/json" "{}"))
     "runners/register.json" "POST" 201 (Some "{}") (Some "before")
     net_scenario.fresh).1
  = ((201%Z, "201 Created", ""), Some "{}").
Proof.
  rewrite (doJSON_success
    (net_scenario.coordinator
       (net_scenario.page 201 "201 Created" "application/json" "{}"))
    "runners/register.json" "POST" 201 (Some "{}") "before"
    net_scenario.fresh _ _ _ "{}" eq_refl eq_refl eq_refl eq_refl eq_refl).
  reflexivity.
Defined.

(** ** Constructing the client *)

Section SplitProperties.

Import go_strings.

(** [Split] never returns an empty slice. *)
Lemma Split_from_nonempty s sep skip cur : Split_from s sep skip cur ≠ [].
Proof.
  revert skip cur.
  induction s as [| c s IH]; intros skip cur; cbn [Split_from]; [done |].
  destruct skip; [| apply IH].
  destruct (HasPrefix (String c s) sep); [done | apply IH].
Qed.

(** Up to the first colon. *)
Lemma Split_from_colon (host rest cur : string) :
  ":"%char ∉ bytes_of host →
  Split_from (host ++ String ":" rest) ":" 0 cur
  = (cur ++ host) :: Split_from rest ":" 0 "".
Proof.
  revert cur. induction host as [| c host IH]; intros cur Hno.
  - rewrite app_empty_l, string_app_empty_r. simpl.
    by destruct rest.
  - unfold bytes_of in *. simpl in Hno.
    apply not_elem_of_cons in Hno as [Hc Hno].
    rewrite app_cons. simpl.
    destruct (Ascii.eqb_spec c ":") as [-> | _]; [done |]. simpl.
    rewrite (IH _ Hno). by rewrite string_app_assoc.
Qed.

Lemma Split_from_no_colon (host cur : string) :
  ":"%char ∉ bytes_of host →
  Split_from host ":" 0 cur = [cur ++ host].
Proof.
  revert cur. induction host as [| c host IH]; intros cur Hno.
  - by rewrite string_app_empty_r.
  - unfold bytes_of in *. simpl in Hno.
    apply not_elem_of_cons in Hno as [Hc Hno]. simpl.
    destruct (Ascii.eqb_spec c ":") as [-> | _]; [done |]. simpl.
    rewrite (IH _ Hno). by rewrite string_app_assoc.
Qed.

End SplitProperties.

Section NewClientProperties.

Import network.

Context {URL : Type}.
Variable url_Parse : string → error + URL.
Variable URL_Scheme : URL → string.
Variable URL_Host : URL → string.
Variable filepath_Join : string → string → string.
Variable CertificateDirectory : string.

Abbreviation newClient :=
  (network.newClient url_Parse URL_Scheme URL_Host filepath_Join
     CertificateDirectory).

(** The first piece of the host always exists. *)
Lemma hostAndPort_first (host : string) :
  ∃ first, go_strings.Split host ":" !! 0%nat = Some first.
Proof.
  unfold go_strings.Split.
  pose proof (go_strings_Split_nonempty := Split_from_nonempty host ":" 0 "").
  destruct (go_strings.Split_from host ":" 0 "") as [| first pieces];
    [done | by exists first].
Qed.

Lemma newClient_accepts config u :
  url_Parse (fixCIURL (cred_URL config) ++ "/api/v1/") = inr u →
  URL_Scheme u = "http" ∨ URL_Scheme u = "https" →
  ∃ file,
    newClient config
    = Returned
        (Some {| Transport := None; url := u; caFile := file; caData := [];
                 skipVerify := true; updateTime := zeroTime |},
         None)
    ∧ (TLSCAFile config ≠ "" ∨ CertificateDirectory = "" →
       file = TLSCAFile config)
    ∧ (TLSCAFile config = "" → CertificateDirectory ≠ "" →
       ∃ host, go_strings.Split (URL_Host u) ":" !! 0%nat = Some host
               ∧ file = filepath_Join CertificateDirectory (host ++ ".crt")).
Proof.
  intros Hparse Hscheme. unfold network.newClient. rewrite Hparse.
  assert (negb (String.eqb (URL_Scheme u) "http")
          && negb (String.eqb (URL_Scheme u) "https") = false) as ->.
  { destruct Hscheme as [-> | ->]; done. }
  cbn [caFile].
  destruct (String.eqb_spec CertificateDirectory "") as [Hdir | Hdir]; simpl.
  { eexists. split; [done |]. split; [done |]. by intros _ ?. }
  destruct (String.eqb_spec (TLSCAFile config) "") as [Hfile | Hfile]; simpl.
  - destruct (hostAndPort_first (URL_Host u)) as [host Hhost].
    rewrite Hhost. eexists. split; [done |]. split.
    + intros [? | ?]; done.
    + intros _ _. by exists host.
  - eexists. split; [done |]. split; [done |]. by intros ?.
Qed.

End NewClientProperties.

(** X21.  [newClient] never panics: the index into the pieces of the host
    is always in range.  It reports a URL that does not parse with the
    parser's error, and a scheme other than http and https with its own
    error, and returns no client then.  Otherwise it returns a client for
    the parsed URL that has no transport and no cached CA bytes yet, the
    zero update time, and verification skipped. *)
Theorem newClient_result
    {URL : Type}
    (url_Parse : string → error + URL)
    (URL_Scheme URL_Host : URL → string)
    (filepath_Join : string → string → string)
    (CertificateDirectory : string)
    (config : network.RunnerCredentials) :
  let result :=
    network.newClient url_Parse URL_Scheme URL_Host filepath_Join
      CertificateDirectory config in
  (∀ message, result ≠ network.Panicked message)
  ∧ (∀ e, url_Parse (network.fixCIURL (network.cred_URL config) ++ "/api/v1/")
          = inl e →
          result = network.Returned (None, Some e))
  ∧ (∀ u, url_Parse (network.fixCIURL (network.cred_URL config) ++ "/api/v1/")
          = inr u →
          URL_Scheme u ≠ "http" → URL_Scheme u ≠ "https" →
          result = network.Returned (None, Some network.errScheme))
  ∧ (∀ u, url_Parse (network.fixCIURL (network.cred_URL config) ++ "/api/v1/")
          = inr u →
          URL_Scheme u = "http" ∨ URL_Scheme u = "https" →
          ∃ c, result = network.Returned (Some c, None)
               ∧ network.url c = u
               ∧ network.Transport c = None
               ∧ network.caData c = []
               ∧ network.updateTime c = network.zeroTime
               ∧ network.skipVerify c = true).
Proof.
  intros result. subst result.
  assert (∀ u, url_Parse (network.fixCIURL (network.cred_URL config) ++ "/api/v1/")
               = inr u →
               URL_Scheme u ≠ "http" → URL_Scheme u ≠ "https" →
               network.newClient url_Parse URL_Scheme URL_Host filepath_Join
                 CertificateDirectory config
               = network.Returned (None, Some network.errScheme)) as Hscheme.
  { intros u Hparse H1 H2. unfold network.newClient. rewrite Hparse.
    apply String.eqb_neq in H1, H2. by rewrite H1, H2. }
  split; [| split; [| split]].
  - intros message.
    destruct (url_Parse (network.fixCIURL (network.cred_URL config) ++ "/api/v1/"))
      as [e | u] eqn:Hparse.
    { unfold network.newClient. by rewrite Hparse. }
    destruct (decide (URL_Scheme u = "http")) as [H1 | H1];
      [| destruct (decide (URL_Scheme u = "https")) as [H2 | H2]].
    + destruct (newClient_accepts url_Parse URL_Scheme URL_Host filepath_Join
                  CertificateDirectory config u Hparse (or_introl H1))
        as (file & -> & _). done.
    + destruct (newClient_accepts url_Parse URL_Scheme URL_Host filepath_Join
                  CertificateDirectory config u Hparse (or_intror H2))
        as (file & -> & _). done.
    + by rewrite (Hscheme u eq_refl H1 H2).
  - intros e Hparse. unfold network.newClient. by rewrite Hparse.
  - exact Hscheme.
  - intros u Hparse Hok.
    destruct (newClient_accepts url_Parse URL_Scheme URL_Host filepath_Join
                CertificateDirectory config u Hparse Hok) as (file & -> & _).
    by eexists.
Qed.

(** X22.  The CA file of the client: the configured one if there is one,
    and none if there is neither a configured one nor a certificate
    directory.  Otherwise it is the file in the certificate directory named
    after the host with ".crt", the port left out: a host without a colon
    and the same host followed by a colon and a port give the same file. *)
Theorem newClient_caFile
    {URL : Type}
    (url_Parse : string → error + URL)
    (URL_Scheme URL_Host : URL → string)
    (filepath_Join : string → string → string)
    (CertificateDirectory : string)
    (config : network.RunnerCredentials) (u : URL) :
  url_Parse (network.fixCIURL (network.cred_URL config) ++ "/api/v1/") = inr u →
  URL_Scheme u = "http" ∨ URL_Scheme u = "https" →
  ∃ c,
    network.newClient url_Parse URL_Scheme URL_Host filepath_Join
      CertificateDirectory config
    = network.Returned (Some c, None)
    ∧ (network.TLSCAFile config ≠ "" ∨ CertificateDirectory = "" →
       network.caFile c = network.TLSCAFile config)
    ∧ (∀ host,
         network.TLSCAFile config = "" → CertificateDirectory ≠ "" →
         ":"%char ∉ bytes_of host →
         URL_Host u = host ∨ (∃ port, URL_Host u = host ++ String ":" port) →
         network.caFile c
         = filepath_Join CertificateDirectory (host ++ ".crt")).
Proof.
  intros Hparse Hok.
  destruct (newClient_accepts url_Parse URL_Scheme URL_Host filepath_Join
              CertificateDirectory config u Hparse Hok)
    as (file & -> & Hconfigured & Hderived).
  eexists. split; [done |]. simpl. split; [exact Hconfigured |].
  intros host Hfile Hdir Hno Hhost.
  destruct (Hderived Hfile Hdir) as (first & Hfirst & ->).
  do 2 f_equal.
  unfold go_strings.Split in Hfirst.
  destruct Hhost as [Hhost | [port Hhost]]; rewrite Hhost in Hfirst.
  - rewrite (Split_from_no_colon host "" Hno) in Hfirst. by injection Hfirst.
  - rewrite (Split_from_colon host port "" Hno) in Hfirst. by injection Hfirst.
Qed.

Lemma newClient_caFile_witness :
  ∃ c,
    network.newClient (λ raw, inr raw) (λ _, "https")
      (λ _, "gitlab.example.com:8443")
      (λ dir name, dir ++ "/" ++ name) "/etc/gitlab-runner/certs"
      {| network.cred_URL := "https://gitlab.example.com:8443/";
         network.TLSCAFile := "" |}
    = network.Returned (Some c, None)
    ∧ network.caFile c = "/etc/gitlab-runner/certs/gitlab.example.com.crt".
Proof.
  destruct (newClient_caFile (λ raw, inr raw) (λ _ : string, "https")
              (λ _, "gitlab.example.com:8443")
              (λ dir name, dir ++ "/" ++ name) "/etc/gitlab-runner/certs"
              {| network.cred_URL := "https://gitlab.example.com:8443/";
                 network.TLSCAFile := "" |}
              "https://gitlab.example.com:8443/ci/api/v1/"
              eq_refl (or_intror eq_refl))
    as (c & Hc & _ & Hfile).
  exists c. split; [exact Hc |].
  apply (Hfile "gitlab.example.com"); [reflexivity | discriminate | |].
  - unfold bytes_of. simpl. rewrite !not_elem_of_cons.
    repeat split; try discriminate. apply not_elem_of_nil.
  - right. by exists "8443".
Defined.

Lemma newClient_result_witness :
  network.newClient (λ raw, inr raw) (λ _, "ftp") (λ _, "files.example.com")
    (λ dir name, dir ++ "/" ++ name) ""
    {| network.cred_URL := "ftp://files.example.com";
       network.TLSCAFile := "" |}
  = network.Returned (None, Some network.errScheme).
Proof.
  pose proof (newClient_result (λ raw, inr raw) (λ _ : string, "ftp")
    (λ _, "files.example.com") (λ dir name, dir ++ "/" ++ name) ""
    {| network.cred_URL := "ftp://files.example.com";
       network.TLSCAFile := "" |}) as H.
  cbv zeta in H. destruct H as (_ & _ & H & _).
  apply (H "ftp://files.example.com/ci/api/v1/"); [reflexivity | done | done].
Defined.

(** X23.  One more slash at the end of the configured URL makes no
    difference to the client built. *)
Theorem newClient_trailing_slash
    {URL : Type}
    (url_Parse : string → error + URL)
    (URL_Scheme URL_Host : URL → string)
    (filepath_Join : string → string → string)
    (CertificateDirectory : string)
    (raw file : string) :
  network.newClient url_Parse URL_Scheme URL_Host filepath_Join
    CertificateDirectory
    {| network.cred_URL := raw ++ "/"; network.TLSCAFile := file |}
  = network.newClient url_Parse URL_Scheme URL_Host filepath_Join
      CertificateDirectory
      {| network.cred_URL := raw; network.TLSCAFile := file |}.
Proof.
  unfold network.newClient, network.fixCIURL. simpl.
  by rewrite TrimRight_slash.
Qed.

(** ** Clients that skip verification *)

Section InsecureProperties.

Import network.

Context {URL Obj Target : Type}.
Variable env : Env URL Obj Target.

Lemma ensureTLSConfig_insecure (s : state URL) :
  insecure s → insecure (ensureTLSConfig env s).
Proof.
  intros (Hskip & Hdata & Htransport).
  destruct (rebuild_due_dec env s) as [Hdue | Hnot].
  - rewrite (ensureTLSConfig_due env s Hdue).
    rewrite (createTransport_no_load env
               (set_this s
                  (set_updateTime (set_Transport (this s) None) (time_Now env)))
               (or_intror Hskip)).
    simpl.
    split; [done |]. split; [done |].
    intros t [= <-]. simpl. done.
  - by rewrite (ensureTLSConfig_not_due env s Hnot).
Qed.

(** Where [do] leaves the state: as it was, or as [ensureTLSConfig] left
    it. *)
Lemma do_state uri method request requestType headers (s : state URL) :
  snd (do env uri method request requestType headers s) = s
  ∨ snd (do env uri method request requestType headers s)
    = ensureTLSConfig env s.
Proof.
  unfold do.
  destruct (URL_Parse env (url (this s)) uri) as [e | u]; [by left |].
  destruct (http_NewRequest env method (URL_String env u) request)
    as [e | req]; [by left |].
  simpl. destruct (client_Do env _ _); by right.
Qed.

Lemma getCAChain_this tls (s : state URL) :
  this (snd (getCAChain env tls s)) = this s.
Proof.
  unfold getCAChain.
  destruct (negb _); [done |]. destruct tls as [tls |]; [| done].
  destruct (collect (VerifiedChains tls)) as [certificates seen].
  pose proof (fold_encode_state env certificates "" s) as H.
  cbv zeta in H. by destruct H as (-> & _).
Qed.

Lemma doJSON_this uri method statusCode request response (s : state URL) :
  this (doJSON env uri method statusCode request response s).2 = this s
  ∨ this (doJSON env uri method statusCode request response s).2
    = this (ensureTLSConfig env s).
Proof.
  unfold doJSON.
  destruct (marshal_body env request) as [message | body]; [by left |].
  pose proof (do_state uri method body "application/json"
                (Some (accept_headers response)) s) as Hstate.
  destruct (do env uri method body "application/json"
              (Some (accept_headers response)) s) as [[e | res] s'];
    simpl in Hstate.
  { destruct Hstate as [-> | ->]; [by left | by right]. }
  assert (this s' = this s ∨ this s' = this (ensureTLSConfig env s)) as Hthis.
  { destruct Hstate as [-> | ->]; [by left | by right]. }
  pose proof (getCAChain_this (TLS res) s') as Hchain.
  destruct (getCAChain env (TLS res) s') as [chain s'']. simpl in Hchain.
  destruct (StatusCode res =? statusCode)%Z; [| simpl; by rewrite Hchain].
  destruct response as [target |]; [| simpl; by rewrite Hchain].
  destruct (negb _); [done |].
  destruct (json_Decode env (resp_Body res) target) as [target' [e |]];
    [done |].
  simpl. by rewrite Hchain.
Qed.

Lemma insecure_this (s s' : state URL) :
  this s' = this s → insecure s → insecure s'.
Proof. unfold insecure. by intros ->. Qed.

End InsecureProperties.

(** X24.  A client as [newClient] builds it never verifies and never reads
    its CA file.  Before its first request it skips verification, has no
    cached CA bytes and no transport; and no call of [doJSON] changes that:
    afterwards verification is still skipped, there are still no cached CA
    bytes, and the transport, once there is one, trusts no roots of its own
    and skips verification. *)
Theorem newClient_client_stays_insecure
    {URL Obj Target : Type}
    (url_Parse : string → error + URL)
    (URL_Scheme URL_Host : URL → string)
    (filepath_Join : string → string → string)
    (CertificateDirectory : string)
    (config : network.RunnerCredentials) (c : network.client URL) :
  network.newClient url_Parse URL_Scheme URL_Host filepath_Join
    CertificateDirectory config
  = network.Returned (Some c, None) →
  network.Transport c = None
  ∧ network.skipVerify c = true
  ∧ network.caData c = []
  ∧ insecure (initial c)
  ∧ (∀ (env : network.Env URL Obj Target) uri method statusCode
       request response (s : network.state URL),
       insecure s →
       insecure (network.doJSON env uri method statusCode request response s).2).
Proof.
  intros Hnew.
  assert (network.Transport c = None ∧ network.skipVerify c = true
          ∧ network.caData c = [] ∧ insecure (initial c)) as Hfresh;
    [| destruct Hfresh as (? & ? & ? & ?); do 4 (split; [done |])].
  - destruct (url_Parse (network.fixCIURL (network.cred_URL config) ++ "/api/v1/"))
      as [e | u] eqn:Hparse.
    { unfold network.newClient in Hnew. by rewrite Hparse in Hnew. }
    destruct (decide (URL_Scheme u = "http")) as [H1 | H1];
      [| destruct (decide (URL_Scheme u = "https")) as [H2 | H2]].
    + destruct (newClient_accepts url_Parse URL_Scheme URL_Host filepath_Join
                  CertificateDirectory config u Hparse (or_introl H1))
        as (file & Hc & _).
      rewrite Hc in Hnew. injection Hnew as <-. done.
    + destruct (newClient_accepts url_Parse URL_Scheme URL_Host filepath_Join
                  CertificateDirectory config u Hparse (or_intror H2))
        as (file & Hc & _).
      rewrite Hc in Hnew. injection Hnew as <-. done.
    + unfold network.newClient in Hnew. rewrite Hparse in Hnew.
      apply String.eqb_neq in H1, H2. by rewrite H1, H2 in Hnew.
  - intros env uri method statusCode request response s Hs.
    destruct (doJSON_this env uri method statusCode request response s)
      as [Hthis | Hthis].
    + by apply (insecure_this s).
    + apply (insecure_this (network.ensureTLSConfig env s)); [done |].
      by apply ensureTLSConfig_insecure.
Qed.

Lemma newClient_client_stays_insecure_witness :
  let c :=
    {| network.Transport := None;
       network.url := "https://gitlab.example.com/ci/api/v1/";
       network.caFile := "ca.crt"; network.caData := [];
       network.skipVerify := true;
       network.updateTime := network.zeroTime |} in
  network.Transport c = None ∧ insecure (initial c).
Proof.
  intros c.
  refine ((λ H, conj (proj1 H) (proj1 (proj2 (proj2 (proj2 H))))) _).
  apply (@newClient_client_stays_insecure string string string
           (λ raw, inr raw) (λ _, "https") (λ _, "gitlab.example.com")
           (λ dir name, dir ++ "/" ++ name) ""
           {| network.cred_URL := "https://gitlab.example.com";
              network.TLSCAFile := "ca.crt" |}).
  reflexivity.
Defined.

(** ** More on URL normalization *)

Section TrimProperties.

Import go_strings.

(** What [TrimRight] takes off is at the end and is made of slashes. *)
Lemma TrimRight_slash_split (s : string) :
  ∃ slashes,
    s = TrimRight s "/" ++ slashes
    ∧ ∀ c, c ∈ bytes_of slashes → c = "/"%char.
Proof.
  induction s as [| c s (slashes & Hs & Hall)].
  - exists "". split; [done |]. by intros c ?%elem_of_nil.
  - simpl. destruct (TrimRight s "/") as [| d t] eqn:Htrim.
    + rewrite app_empty_l in Hs. subst slashes.
      destruct (Ascii.eqb_spec c "/") as [-> | Hc]; simpl.
      * exists (String "/" s). split; [done |].
        intros c [-> | Hc]%elem_of_cons; [done | by apply Hall].
      * exists s. by split.
    + exists slashes. split; [| done].
      rewrite Hs at 1. by rewrite !app_cons.
Qed.

End TrimProperties.

(** X25.  [fixCIURL] takes nothing off a URL but slashes at its end: the
    URL is a kept part followed by slashes only, and the result is the kept
    part, or the kept part followed by "/ci".  The result is at most three
    bytes longer than the URL. *)
Theorem fixCIURL_trims_only_slashes (url : string) :
  ∃ kept slashes,
    url = kept ++ slashes
    ∧ (∀ c, c ∈ bytes_of slashes → c = "/"%char)
    ∧ (network.fixCIURL url = kept ∨ network.fixCIURL url = kept ++ "/ci")
    ∧ (String.length (network.fixCIURL url) ≤ String.length url + 3)%nat.
Proof.
  destruct (TrimRight_slash_split url) as (slashes & Hurl & Hall).
  exists (go_strings.TrimRight url "/"), slashes.
  split; [exact Hurl |]. split; [exact Hall |].
  assert (String.length (go_strings.TrimRight url "/") ≤ String.length url)%nat
    as Hlen.
  { rewrite Hurl at 2. rewrite length_app_string. lia. }
  unfold network.fixCIURL.
  destruct (go_strings.HasSuffix (go_strings.TrimRight url "/") "/ci"); simpl.
  - split; [by left | lia].
  - split; [by right |]. rewrite length_app_string. simpl. lia.
Qed.
